(** * roulette-simulator: the strategy parser and the simulation loop of main.go

    A shallow embedding of [main.go].  Go's [float64] is the kernel's binary64
    [float]: round to nearest even, one rounding per operation (the product
    and the sum of [bankroll += bet.Amount * 36] are rounded separately, as
    the compiler does on amd64).  Go's [int] is [Z] (no integer arithmetic of
    the program leaves the 64-bit range); a Go [string] is a [string] of
    bytes.  [math/rand] is a state-passing source of draws;
    [strconv.ParseFloat] is a parameter of the parser. *)

From Stdlib Require Import ZArith List String Ascii Bool Lia Floats.
Import ListNotations.

Local Open Scope string_scope.
Local Open Scope list_scope.
Local Open Scope Z_scope.

(** ** Data model *)

(** [type Bet struct { Type string; Value int; Amount float64 }]
    ([Type] is a keyword here, hence [Type_]). *)
Record Bet := { Type_ : string; Value : Z; Amount : float }.

(** [type Strategy struct { InitialBankroll float64; Bets []Bet }] *)
Record Strategy := { InitialBankroll : float; Bets : list Bet }.

(** [type RouletteWheel struct { Numbers []int }] *)
Record RouletteWheel := { Numbers : list Z }.

(** ** The random source

    [rand.Intn(n)] reads and advances the process-wide generator and returns
    a draw in [[0, n)] for [n > 0] (it panics otherwise).  The generator is a
    state [rng] threaded through the calls. *)
Record RandSource := {
  rng : Type;
  Intn : Z -> rng -> Z * rng;
  Intn_range : forall n s, 0 < n -> 0 <= fst (Intn n s) < n
}.

(** A linear congruential source, for running the program on examples. *)
Definition lcgNext (s : Z) : Z :=
  (s * 6364136223846793005 + 1442695040888963407) mod 2 ^ 64.

Definition lcgIntn (n : Z) (s : Z) : Z * Z :=
  let s' := lcgNext s in ((s' / 2 ^ 33) mod n, s').

Definition lcg : RandSource :=
  {| rng := Z; Intn := lcgIntn;
     Intn_range := fun n s Hn => Z.mod_pos_bound (lcgNext s / 2 ^ 33) n Hn |}.

(** ** Wheel *)

(** [numbers[i] = v] on a slice; the program only stores within bounds
    (out of range Go panics; here the slice is returned as it is). *)
Fixpoint store (numbers : list Z) (i : nat) (v : Z) : list Z :=
  match numbers, i with
  | [], _ => []
  | _ :: rest, O => v :: rest
  | x :: rest, S j => x :: store rest j v
  end.

(** [NewRouletteWheel]: [make([]int, 38)], the loop [for i := 0; i < 36; i++
    { numbers[i] = i + 1 }], then the two green pockets, [0] and [00] (the
    literal [00] is the integer 0). *)
Definition NewRouletteWheel : RouletteWheel :=
  let numbers := repeat 0 38 in
  let numbers :=
    fold_left (fun ns i => store ns i (Z.of_nat i + 1)) (seq 0 36) numbers in
  let numbers := store numbers 36 0 in
  let numbers := store numbers 37 0 in
  {| Numbers := numbers |}.

(** ** Simulator *)

(** [contains]: the loop over the slice, returning at the first match. *)
Fixpoint contains (slice : list Z) (val : Z) : bool :=
  match slice with
  | [] => false
  | item :: rest => if item =? val then true else contains rest val
  end.

Definition redNumbers : list Z :=
  [1; 3; 5; 7; 9; 12; 14; 16; 18; 19; 21; 23; 25; 27; 30; 32; 34; 36].

Definition blackNumbers : list Z :=
  [2; 4; 6; 8; 10; 11; 13; 15; 17; 20; 22; 24; 26; 28; 29; 31; 33; 35].

(** The [switch bet.Type] of the loop body: [Some c] when the matching case
    executes [bankroll += c], [None] when no case matches or its condition
    fails.  Go's [%] truncates towards zero ([Z.rem]). *)
Definition credit (bet : Bet) (winningNumber : Z) : option float :=
  if String.eqb (Type_ bet) "number" then
    if Value bet =? winningNumber then Some (Amount bet * 36)%float else None
  else if String.eqb (Type_ bet) "even" then
    if (Z.rem winningNumber 2 =? 0) && negb (winningNumber =? 0)
    then Some (Amount bet * 2)%float else None
  else if String.eqb (Type_ bet) "odd" then
    if negb (Z.rem winningNumber 2 =? 0) && negb (winningNumber =? 0)
    then Some (Amount bet * 2)%float else None
  else if String.eqb (Type_ bet) "red" then
    if contains redNumbers winningNumber
    then Some (Amount bet * 2)%float else None
  else if String.eqb (Type_ bet) "black" then
    if contains blackNumbers winningNumber
    then Some (Amount bet * 2)%float else None
  else None.

(** One iteration of [for _, bet := range strategy.Bets]. *)
Definition placeBet (winningNumber : Z) (bankroll : float) (bet : Bet)
  : float :=
  if (bankroll <? Amount bet)%float then bankroll
  else
    let bankroll := (bankroll - Amount bet)%float in
    match credit bet winningNumber with
    | Some c => (bankroll + c)%float
    | None => bankroll
    end.

(** The inner loop: every bet settles against the same winning number. *)
Definition playRound (bets : list Bet) (winningNumber : Z) (bankroll : float)
  : float :=
  fold_left (placeBet winningNumber) bets bankroll.

(** The assignments to [bankroll] in the order the program makes them:
    [bankroll -= amount] and [bankroll += payout], each with the bankroll it
    found. *)
Inductive Write :=
| Debit (bankroll amount : float)
| Credit (bankroll payout : float).

Definition written (w : Write) : float :=
  match w with
  | Debit bankroll amount => (bankroll - amount)%float
  | Credit bankroll payout => (bankroll + payout)%float
  end.

(** [placeBet], recording its assignments. *)
Definition placeBetLog (winningNumber : Z) (st : float * list Write) (bet : Bet)
  : float * list Write :=
  let (bankroll, log) := st in
  if (bankroll <? Amount bet)%float then (bankroll, log)
  else
    let log := log ++ [Debit bankroll (Amount bet)] in
    let bankroll := (bankroll - Amount bet)%float in
    match credit bet winningNumber with
    | Some c => ((bankroll + c)%float, log ++ [Credit bankroll c])
    | None => (bankroll, log)
    end.

Definition playRoundLog (bets : list Bet) (winningNumber : Z)
    (st : float * list Write) : float * list Write :=
  fold_left (placeBetLog winningNumber) bets st.

(** [x >= 0] as Go evaluates it on [float64]: false on NaN. *)
Definition nonneg (x : float) : Prop := (0 <=? x)%float = true.

(** [nonneg] on the specification of a number. *)
Definition SFnonneg (x : spec_float) : Prop :=
  match x with
  | S754_zero _ => True
  | S754_infinity s => s = false
  | S754_nan => False
  | S754_finite s _ _ => s = false
  end.

(** What holds of every assignment: the value written is non-negative, and
    a debit found a bankroll that covers the amount. *)
Definition soundWrite (w : Write) : Prop :=
  nonneg (written w)
  /\ match w with
     | Debit bankroll amount => (amount <=? bankroll)%float = true
     | Credit _ _ => True
     end.

Definition soundState (st : float * list Write) : Prop :=
  nonneg (fst st) /\ Forall soundWrite (snd st).

Definition soundBet (bet : Bet) : Prop :=
  nonneg (Amount bet) /\ (Amount bet <? infinity)%float = true.

(** The five bet types of the [switch]. *)
Definition recognized (ty : string) : bool :=
  String.eqb ty "number" || String.eqb ty "even" || String.eqb ty "odd"
  || String.eqb ty "red" || String.eqb ty "black".

(** The payout table as the specification words it: when a bet wins, and
    what a winning bet is credited. *)
Definition winsWhen (bet : Bet) (pocket : Z) : Prop :=
  (Type_ bet = "number" /\ pocket = Value bet)
  \/ (Type_ bet = "even" /\ Z.even pocket = true /\ pocket <> 0)
  \/ (Type_ bet = "odd" /\ Z.odd pocket = true)
  \/ (Type_ bet = "red" /\ In pocket redNumbers)
  \/ (Type_ bet = "black" /\ In pocket blackNumbers).

Definition payout (bet : Bet) : float :=
  if String.eqb (Type_ bet) "number" then (Amount bet * 36)%float
  else (Amount bet * 2)%float.

(** The pockets of the wheel on which a bet is credited. *)
Definition winningPockets (bet : Bet) : list Z :=
  filter (fun pocket =>
            match credit bet pocket with Some _ => true | None => false end)
         (Numbers NewRouletteWheel).

Section Simulator.

Variable rs : RandSource.

(** [Spin]: [rw.Numbers[rand.Intn(len(rw.Numbers))]] *)
Definition Spin (rw : RouletteWheel) (s : rng rs) : Z * rng rs :=
  let (k, s') := Intn rs (Z.of_nat (List.length (Numbers rw))) s in
  (nth (Z.to_nat k) (Numbers rw) 0, s').

(** The outer loop, [n] iterations left. *)
Fixpoint games (wheel : RouletteWheel) (bets : list Bet) (n : nat)
    (s : rng rs) (bankroll : float) : float :=
  match n with
  | O => bankroll
  | S n' =>
      let (winningNumber, s') := Spin wheel s in
      games wheel bets n' s' (playRound bets winningNumber bankroll)
  end.

(** [SimulateRoulette]; [for i := 0; i < numGames; i++] runs
    [max numGames 0] times. *)
Definition SimulateRoulette (strategy : Strategy) (numGames : Z) (s : rng rs)
  : float :=
  let wheel := NewRouletteWheel in
  let bankroll := InitialBankroll strategy in
  games wheel (Bets strategy) (Z.to_nat numGames) s bankroll.

(** The two loops, recording the assignments. *)
Fixpoint gamesLog (wheel : RouletteWheel) (bets : list Bet) (n : nat)
    (s : rng rs) (st : float * list Write) : float * list Write :=
  match n with
  | O => st
  | S n' =>
      let (winningNumber, s') := Spin wheel s in
      gamesLog wheel bets n' s' (playRoundLog bets winningNumber st)
  end.

Definition SimulateRouletteLog (strategy : Strategy) (numGames : Z)
    (s : rng rs) : float * list Write :=
  gamesLog NewRouletteWheel (Bets strategy) (Z.to_nat numGames) s
    (InitialBankroll strategy, []).

End Simulator.

Section SimulatorState.
Variable rs : RandSource.
(** The generator after the [n] spins of [n] games. *)
Fixpoint rngAfter (wheel : RouletteWheel) (n : nat) (s : rng rs) : rng rs :=
  match n with
  | O => s
  | S n' => rngAfter wheel n' (snd (Spin rs wheel s))
  end.
End SimulatorState.

(** ** Strings: the functions of package [strings] the parser calls *)

Definition LF : ascii := ascii_of_nat 10.

(** [strings.Split(s, sep)] for a separator of one byte: the pieces between
    the occurrences of [sep], one more than there are occurrences. *)
Fixpoint Split (s : string) (sep : ascii) : list string :=
  match s with
  | EmptyString => [EmptyString]
  | String c rest =>
      if Ascii.eqb c sep then EmptyString :: Split rest sep
      else
        match Split rest sep with
        | piece :: pieces => String c piece :: pieces
        | [] => [String c EmptyString]
        end
  end.

(** [strings.HasPrefix(s, prefix)] *)
Definition HasPrefix (s pre : string) : bool := String.prefix pre s.

(** [strings.TrimPrefix(s, prefix)]: [s[len(prefix):]] when [s] starts with
    [prefix], [s] otherwise. *)
Definition TrimPrefix (s pre : string) : string :=
  if HasPrefix s pre
  then substring (String.length pre) (String.length s - String.length pre) s
  else s.

(** The white space of [unicode.IsSpace], as UTF-8: the six ASCII bytes,
    U+0085 and U+00A0 (two bytes), U+1680, U+2000..U+200A, U+2028, U+2029,
    U+202F, U+205F and U+3000 (three bytes). *)
Definition asciiSpace (c : ascii) : bool :=
  let n := N_of_ascii c in
  ((9 <=? n) && (n <=? 13) || (n =? 32))%N.

Definition isSpace2 (c1 c2 : ascii) : bool :=
  let (b1, b2) := (N_of_ascii c1, N_of_ascii c2) in
  ((b1 =? 194) && ((b2 =? 133) || (b2 =? 160)))%N.

Definition isSpace3 (c1 c2 c3 : ascii) : bool :=
  let '(b1, b2, b3) := (N_of_ascii c1, N_of_ascii c2, N_of_ascii c3) in
  ((b1 =? 225) && (b2 =? 154) && (b3 =? 128)
   || (b1 =? 226) && (b2 =? 128)
      && ((128 <=? b3) && (b3 <=? 138) || (b3 =? 168) || (b3 =? 169)
          || (b3 =? 175))
   || (b1 =? 226) && (b2 =? 129) && (b3 =? 159)
   || (b1 =? 227) && (b2 =? 128) && (b3 =? 128))%N.

(** [strings.TrimLeftFunc(s, unicode.IsSpace)]: drop white-space runes from
    the front.  An invalid byte decodes to U+FFFD, which is no space. *)
Fixpoint trimLeft (s : string) : string :=
  match s with
  | EmptyString => s
  | String c1 r1 =>
      if asciiSpace c1 then trimLeft r1
      else
        match r1 with
        | EmptyString => s
        | String c2 r2 =>
            if isSpace2 c1 c2 then trimLeft r2
            else
              match r2 with
              | EmptyString => s
              | String c3 r3 => if isSpace3 c1 c2 c3 then trimLeft r3 else s
              end
        end
  end.

(** The same from the back, on the reversed bytes: the last rune is a white
    space exactly when the bytes end with its encoding. *)
Fixpoint trimLeftRev (s : list ascii) : list ascii :=
  match s with
  | [] => s
  | c1 :: r1 =>
      if asciiSpace c1 then trimLeftRev r1
      else
        match r1 with
        | [] => s
        | c2 :: r2 =>
            if isSpace2 c2 c1 then trimLeftRev r2
            else
              match r2 with
              | [] => s
              | c3 :: r3 => if isSpace3 c3 c2 c1 then trimLeftRev r3 else s
              end
        end
  end.

Definition trimRight (s : string) : string :=
  string_of_list_ascii (rev (trimLeftRev (rev (list_ascii_of_string s)))).

(** [strings.TrimSpace(s)] *)
Definition TrimSpace (s : string) : string := trimRight (trimLeft s).

(** ** strconv *)

(** The [Err] of a [*strconv.NumError]. *)
Inductive NumError := ErrSyntax | ErrRange.

Definition digitVal (c : ascii) : option Z :=
  let n := Z.of_N (N_of_ascii c) in
  if (48 <=? n) && (n <=? 57) then Some (n - 48) else None.

(** The loop of [strconv.ParseUint(s, 10, 64)]: a byte that is no digit is a
    syntax error, a value above [2^64 - 1] a range error, whichever comes
    first. *)
Fixpoint parseDigits (s : string) (n : Z) : Z + NumError :=
  match s with
  | EmptyString => inl n
  | String c rest =>
      match digitVal c with
      | None => inr ErrSyntax
      | Some d =>
          let n1 := n * 10 + d in
          if n1 >? 2 ^ 64 - 1 then inr ErrRange else parseDigits rest n1
      end
  end.

(** [strconv.Atoi(s)] with a 64-bit [int]: an optional sign, then at least
    one decimal digit and nothing else; the value within
    [[-2^63, 2^63 - 1]]. *)
Definition Atoi (s : string) : Z + NumError :=
  match s with
  | EmptyString => inr ErrSyntax
  | String c rest =>
      let neg := Ascii.eqb c "-" in
      let digits := if neg || Ascii.eqb c "+" then rest else s in
      match digits with
      | EmptyString => inr ErrSyntax
      | _ =>
          match parseDigits digits 0 with
          | inr err => inr err
          | inl un =>
              if negb neg && (un >=? 2 ^ 63) then inr ErrRange
              else if neg && (un >? 2 ^ 63) then inr ErrRange
              else inl (if neg then - un else un)
          end
      end
  end.

(** ** Strategy parser *)

(** The errors of [ParseStrategy], one constructor per [fmt.Errorf]:
    invalid bankroll, invalid bet format (carrying the line), invalid bet
    value, invalid bet amount. *)
Inductive ParseError :=
| InvalidBankroll (err : NumError)
| MalformedBet (line : string)
| InvalidBetValue (err : NumError)
| InvalidBetAmount (err : NumError).

Section Parser.

(** [strconv.ParseFloat(s, 64)]: the value, or the error. *)
Variable ParseFloat : string -> float + NumError.

(** The body of [for _, line := range lines]. *)
Definition parseLine (strategy : Strategy) (line : string)
  : Strategy + ParseError :=
  let line := TrimSpace line in
  if HasPrefix line "bankroll:" then
    let bankrollStr := TrimPrefix line "bankroll:" in
    match ParseFloat (TrimSpace bankrollStr) with
    | inr err => inr (InvalidBankroll err)
    | inl bankroll =>
        inl {| InitialBankroll := bankroll; Bets := Bets strategy |}
    end
  else if HasPrefix line "bet:" then
    let betStr := TrimPrefix line "bet:" in
    let parts := Split betStr "," in
    if negb (Nat.eqb (List.length parts) 3) then inr (MalformedBet line)
    else
      let betType := TrimSpace (nth 0 parts EmptyString) in
      match Atoi (TrimSpace (nth 1 parts EmptyString)) with
      | inr err => inr (InvalidBetValue err)
      | inl betValue =>
          match ParseFloat (TrimSpace (nth 2 parts EmptyString)) with
          | inr err => inr (InvalidBetAmount err)
          | inl betAmount =>
              inl {| InitialBankroll := InitialBankroll strategy;
                     Bets := Bets strategy ++
                       [{| Type_ := betType; Value := betValue;
                           Amount := betAmount |}] |}
          end
      end
  else inl strategy.

(** The loop: the first error ends the parse. *)
Fixpoint parseLines (lines : list string) (strategy : Strategy)
  : Strategy + ParseError :=
  match lines with
  | [] => inl strategy
  | line :: rest =>
      match parseLine strategy line with
      | inr err => inr err
      | inl strategy' => parseLines rest strategy'
      end
  end.

(** [ParseStrategy]; [&Strategy{}] has bankroll [0] and no bets. *)
Definition ParseStrategy (input : string) : Strategy + ParseError :=
  let lines := Split input LF in
  let strategy := {| InitialBankroll := 0%float; Bets := [] |} in
  parseLines lines strategy.

(** The lines of the input as the specification reads them.  A line is a
    bankroll line or a bet line by the prefix of its trimmed text. *)
Definition isBankrollLine (line : string) : bool :=
  HasPrefix (TrimSpace line) "bankroll:".

Definition isBetLine (line : string) : bool :=
  HasPrefix (TrimSpace line) "bet:".

(** The numeric text of a trimmed bankroll line, and the [i]-th trimmed
    field of a trimmed bet line. *)
Definition bankrollText (line : string) : string :=
  TrimSpace (TrimPrefix line "bankroll:").

Definition betParts (line : string) : list string :=
  Split (TrimPrefix line "bet:") ",".

Definition betField (i : nat) (line : string) : string :=
  TrimSpace (nth i (betParts line) EmptyString).

(** The four ways a trimmed line makes the parse fail, each with the error
    the specification names for it. *)
Inductive faulty (line : string) : ParseError -> Prop :=
| faulty_bankroll err :
    HasPrefix line "bankroll:" = true ->
    ParseFloat (bankrollText line) = inr err ->
    faulty line (InvalidBankroll err)
| faulty_fields :
    HasPrefix line "bet:" = true ->
    List.length (betParts line) <> 3%nat ->
    faulty line (MalformedBet line)
| faulty_value err :
    HasPrefix line "bet:" = true ->
    List.length (betParts line) = 3%nat ->
    Atoi (betField 1 line) = inr err ->
    faulty line (InvalidBetValue err)
| faulty_amount err :
    HasPrefix line "bet:" = true ->
    List.length (betParts line) = 3%nat ->
    ParseFloat (betField 2 line) = inr err ->
    faulty line (InvalidBetAmount err).

(** The bet a well-formed bet line stands for. *)
Definition betOf (line : string) : option Bet :=
  let line := TrimSpace line in
  if HasPrefix line "bet:" && Nat.eqb (List.length (betParts line)) 3 then
    match Atoi (betField 1 line), ParseFloat (betField 2 line) with
    | inl v, inl a =>
        Some {| Type_ := betField 0 line; Value := v; Amount := a |}
    | _, _ => None
    end
  else None.

(** The bets of the bet lines, in the order of the lines. *)
Fixpoint collectBets (lines : list string) : list Bet :=
  match lines with
  | [] => []
  | line :: rest =>
      match betOf line with
      | Some bet => bet :: collectBets rest
      | None => collectBets rest
      end
  end.

End Parser.

(** Lines joined by newlines, for writing input texts. *)
Definition unlines (lines : list string) : string :=
  String.concat (String LF EmptyString) lines.

(** A [ParseFloat] for plain decimal literals: an optional sign, digits with
    at most one point and at least one digit, rounded once to the nearest
    binary64.  [strconv.ParseFloat] accepts more (exponents, hexadecimal,
    infinities, NaN); the theorems on the parser hold for every
    [ParseFloat], and this one runs the parser on examples. *)
Fixpoint scanDecimal (s : string) (m : Z) (seenDot : bool) (frac nd : nat)
  : option (Z * nat) :=
  match s with
  | EmptyString => match nd with O => None | _ => Some (m, frac) end
  | String c rest =>
      if Ascii.eqb c "." then
        if seenDot then None else scanDecimal rest m true frac nd
      else
        match digitVal c with
        | None => None
        | Some d =>
            scanDecimal rest (m * 10 + d) seenDot
              (if seenDot then S frac else frac) (S nd)
        end
  end.

Definition decimalValue (neg : bool) (m : Z) (frac : nat) : spec_float :=
  match m with
  | Zpos p =>
      let '(q, e, l) :=
        SFdiv_core_binary prec emax (Zpos p) 0 (10 ^ Z.of_nat frac) 0 in
      binary_round_aux prec emax neg q e l
  | _ => S754_zero neg
  end.

Definition ParseFloatPlain (s : string) : float + NumError :=
  match s with
  | EmptyString => inr ErrSyntax
  | String c rest =>
      let neg := Ascii.eqb c "-" in
      let digits := if neg || Ascii.eqb c "+" then rest else s in
      match scanDecimal digits 0 false 0 0 with
      | None => inr ErrSyntax
      | Some (m, frac) =>
          match decimalValue neg m frac with
          | S754_infinity _ => inr ErrRange
          | v => inl (SF2Prim v)
          end
      end
  end.

(** ** What the parser returns, line by line *)

Section ParserReading.

Variable ParseFloat : string -> float + NumError.

(** What the parser checks of one line, whatever the strategy so far: the
    number of a bankroll line; of a bet line the count of its fields, then
    its value, then its amount. *)
Definition lineError (line : string) : option ParseError :=
  let line := TrimSpace line in
  if HasPrefix line "bankroll:" then
    match ParseFloat (bankrollText line) with
    | inr err => Some (InvalidBankroll err)
    | inl _ => None
    end
  else if HasPrefix line "bet:" then
    if negb (Nat.eqb (List.length (betParts line)) 3)
    then Some (MalformedBet line)
    else
      match Atoi (betField 1 line) with
      | inr err => Some (InvalidBetValue err)
      | inl _ =>
          match ParseFloat (betField 2 line) with
          | inr err => Some (InvalidBetAmount err)
          | inl _ => None
          end
      end
  else None.

(** The error of the first line that has one. *)
Fixpoint firstError (lines : list string) : option ParseError :=
  match lines with
  | [] => None
  | line :: rest =>
      match lineError line with
      | Some err => Some err
      | None => firstError rest
      end
  end.

(** The number of the last bankroll line, [bankroll] when there is none. *)
Fixpoint lastBankroll (lines : list string) (bankroll : float) : float :=
  match lines with
  | [] => bankroll
  | line :: rest =>
      if isBankrollLine line then
        match ParseFloat (bankrollText (TrimSpace line)) with
        | inl b => lastBankroll rest b
        | inr _ => lastBankroll rest bankroll
        end
      else lastBankroll rest bankroll
  end.

End ParserReading.

(** The loop of [main] that collects the strategy text, over the lines the
    scanner yields: each line before the first [done] is appended with a
    newline; the lines after it are left for the rest of [main]. *)
Fixpoint readStrategy (lines : list string) (input : string)
  : string * list string :=
  match lines with
  | [] => (input, [])
  | line :: rest =>
      if String.eqb line "done" then (input, rest)
      else readStrategy rest (input ++ line ++ String LF EmptyString)
  end.

(** The lines before the first [done]. *)
Fixpoint beforeDone (lines : list string) : list string :=
  match lines with
  | [] => []
  | line :: rest =>
      if String.eqb line "done" then [] else line :: beforeDone rest
  end.

(** The lines, each ended by a newline. *)
Fixpoint linesText (lines : list string) : string :=
  match lines with
  | [] => EmptyString
  | line :: rest => line ++ String LF (linesText rest)
  end.

(** Whether byte [c] occurs in [s] (a scanned line holds no newline). *)
Fixpoint hasByte (c : ascii) (s : string) : bool :=
  match s with
  | EmptyString => false
  | String c' rest => Ascii.eqb c' c || hasByte c rest
  end.

(** What [main] prints after its prompts: the error of the parse, the
    error of the game count, or the three numbers of the report. *)
Inductive Outcome :=
| ParseFailed (err : ParseError)
| InvalidGames (err : NumError)
| Report (initial final profit : float).

Section Main.

Variable rs : RandSource.
Variable ParseFloat : string -> float + NumError.

(** [main] over the lines the scanner yields from standard input, read to
    its end without error, and the generator as seeded. The game count is
    the text of the next [Scan], empty when no line is left. *)
Definition main (lines : list string) (s : rng rs) : Outcome :=
  let (input, rest) := readStrategy lines EmptyString in
  match ParseStrategy ParseFloat input with
  | inr err => ParseFailed err
  | inl strategy =>
      match Atoi (hd EmptyString rest) with
      | inr err => InvalidGames err
      | inl numGames =>
          let finalBankroll := SimulateRoulette rs strategy numGames s in
          Report (InitialBankroll strategy) finalBankroll
                 (finalBankroll - InitialBankroll strategy)%float
      end
  end.

End Main.

(** * Properties *)

(** ** binary64: signs of sums, products and differences

    The primitive operations are specified on [spec_float] ([add_spec],
    [sub_spec], [mul_spec], [ltb_spec], [leb_spec]); every primitive number
    is a valid one ([Prim2SF_valid]). *)

Lemma nonneg_spec x : nonneg x <-> SFnonneg (Prim2SF x).
Proof.
  unfold nonneg. rewrite leb_spec.
  change (Prim2SF 0) with (S754_zero false).
  destruct (Prim2SF x) as [s|s| |s m e]; cbn; try destruct s; cbn;
    intuition congruence.
Qed.

Lemma shr_1_nonneg mrs : 0 <= shr_m mrs -> 0 <= shr_m (shr_1 mrs).
Proof.
  destruct mrs as [m r s]. cbn [shr_m].
  destruct m as [|p|p]; [| destruct p | ]; cbn; lia.
Qed.

Lemma iter_pos_inv {A} (P : A -> Prop) (f : A -> A) :
  (forall a, P a -> P (f a)) -> forall n a, P a -> P (iter_pos f n a).
Proof.
  intros Hf. induction n as [n IH|n IH|]; intros a Ha; cbn; auto.
Qed.

Lemma shr_nonneg mrs e n : 0 <= shr_m mrs -> 0 <= shr_m (fst (shr mrs e n)).
Proof.
  intros H. unfold shr. destruct n; cbn [fst]; auto.
  apply (iter_pos_inv (fun r => 0 <= shr_m r)); auto using shr_1_nonneg.
Qed.

Lemma shr_record_of_loc_m m l : shr_m (shr_record_of_loc m l) = m.
Proof. destruct l as [|[]]; reflexivity. Qed.

Lemma shr_fexp_nonneg m e l :
  0 <= m -> 0 <= shr_m (fst (shr_fexp prec emax m e l)).
Proof.
  intros H. unfold shr_fexp. apply shr_nonneg.
  rewrite shr_record_of_loc_m. exact H.
Qed.

Lemma round_nearest_even_nonneg m l : 0 <= m -> 0 <= round_nearest_even m l.
Proof.
  intros H. unfold round_nearest_even.
  destruct l as [|[]]; try destruct (Z.even m); lia.
Qed.

Lemma binary_round_aux_nonneg m e l :
  0 <= m -> SFnonneg (binary_round_aux prec emax false m e l).
Proof.
  intros H. unfold binary_round_aux.
  pose proof (shr_fexp_nonneg m e l H) as H1.
  destruct (shr_fexp prec emax m e l) as [mrs' e']. cbn [fst] in H1.
  pose proof (shr_fexp_nonneg _ e' loc_Exact
                (round_nearest_even_nonneg _ (loc_of_shr_record mrs') H1))
    as H2.
  destruct (shr_fexp prec emax (round_nearest_even _ _) e' loc_Exact)
    as [mrs'' e''].
  cbn [fst] in H2.
  destruct (shr_m mrs'') as [|p|p]; cbn; auto; try lia.
  destruct (e'' <=? _); cbn; reflexivity.
Qed.

Lemma binary_round_nonneg m e : SFnonneg (binary_round prec emax false m e).
Proof.
  unfold binary_round.
  destruct (shl_align _ _ _) as [mz ez].
  apply binary_round_aux_nonneg. lia.
Qed.

Lemma binary_normalize_nonneg m e :
  0 <= m -> SFnonneg (binary_normalize prec emax m e false).
Proof.
  intros H. destruct m; cbn; auto using binary_round_nonneg. lia.
Qed.

Lemma SFmul_nonneg x y : SFnonneg x -> SFnonneg y ->
  match y with S754_finite _ _ _ => True | _ => False end ->
  SFnonneg (SF64mul x y).
Proof.
  destruct x as [sx|sx| |sx mx ex], y as [sy|sy| |sy my ey]; cbn; try tauto;
    intros; subst; cbn; auto.
  apply binary_round_aux_nonneg. lia.
Qed.

Lemma SFadd_nonneg x y : SFnonneg x -> SFnonneg y -> SFnonneg (SF64add x y).
Proof.
  destruct x as [sx|sx| |sx mx ex], y as [sy|sy| |sy my ey]; cbn; try tauto;
    intros; subst; cbn; auto.
  - destruct sx, sy; cbn; auto.
  - apply binary_round_nonneg.
Qed.

Lemma Piter_xO m d : Zpos (Pos.iter xO m d) = Zpos m * 2 ^ Zpos d.
Proof.
  revert m. induction d using Pos.peano_ind; intros m.
  - cbn. lia.
  - rewrite Pos.iter_succ, Pos2Z.inj_succ, Z.pow_succ_r by lia.
    rewrite Pos2Z.inj_xO, IHd. lia.
Qed.

Lemma shl_align_value mx ex ez : ez <= ex ->
  Zpos (fst (shl_align mx ex ez)) = Zpos mx * 2 ^ (ex - ez).
Proof.
  intros H. unfold shl_align.
  destruct (ez - ex) as [|d|d] eqn:E; cbn [fst].
  - replace (ex - ez) with 0 by lia. lia.
  - lia.
  - rewrite Piter_xO. f_equal. f_equal. lia.
Qed.

Lemma digits2_pos_bounds m :
  2 ^ (Zpos (digits2_pos m) - 1) <= Zpos m < 2 ^ Zpos (digits2_pos m).
Proof.
  induction m as [m IH|m IH|]; cbn [digits2_pos].
  1, 2: rewrite Pos2Z.inj_succ, Z.pow_succ_r by lia;
    replace (Z.succ (Zpos (digits2_pos m)) - 1)
      with (Z.succ (Zpos (digits2_pos m) - 1)) by lia;
    rewrite Z.pow_succ_r by lia; lia.
  cbn. lia.
Qed.

(** What [valid_binary] says of a finite binary64 number. *)
Lemma bounded_inv m e : bounded prec emax m e = true ->
  Zpos (digits2_pos m) <= 53 /\ -1074 <= e /\
  (Zpos (digits2_pos m) = 53 \/ e = -1074).
Proof.
  unfold bounded, canonical_mantissa, fexp, emin, prec, emax.
  intros H. apply andb_prop in H. destruct H as [H _].
  apply Z.eqb_eq in H. lia.
Qed.

(** On valid non-negative finite numbers, [x < y] being false orders the
    aligned mantissas. *)
Lemma SFltb_false_aligned mx ex my ey :
  bounded prec emax mx ex = true -> bounded prec emax my ey = true ->
  SFltb (S754_finite false mx ex) (S754_finite false my ey) = false ->
  Zpos (fst (shl_align my ey (Z.min ex ey)))
  <= Zpos (fst (shl_align mx ex (Z.min ex ey))).
Proof.
  intros Hx Hy H.
  apply bounded_inv in Hx, Hy.
  pose proof (digits2_pos_bounds mx) as Bx.
  pose proof (digits2_pos_bounds my) as By.
  rewrite !shl_align_value by lia.
  unfold SFltb, SFcompare in H.
  destruct (Z.compare_spec ex ey) as [E|E|E].
  - subst ey. rewrite Z.min_id, Z.sub_diag.
    change (Pos.compare_cont Eq mx my) with (Pos.compare mx my) in H.
    destruct (Pos.compare_spec mx my); try discriminate; lia.
  - discriminate.
  - rewrite Z.min_r by lia. rewrite Z.sub_diag.
    assert (Dx : Zpos (digits2_pos mx) = 53) by lia.
    rewrite Dx in Bx.
    assert (By' : Zpos my < 2 ^ 53).
    { eapply Z.lt_le_trans; [apply By|]. apply Z.pow_le_mono_r; lia. }
    assert (2 ^ 1 <= 2 ^ (ex - ey)) by (apply Z.pow_le_mono_r; lia).
    change (2 ^ (53 - 1)) with 4503599627370496 in Bx.
    change (2 ^ 53) with 9007199254740992 in By'.
    change (2 ^ 1) with 2 in *. change (2 ^ 0) with 1. nia.
Qed.

Lemma SFsub_nonneg x y :
  valid_binary x = true -> valid_binary y = true ->
  SFnonneg x -> SFnonneg y ->
  match y with S754_infinity _ => False | _ => True end ->
  SFltb x y = false ->
  SFnonneg (SF64sub x y).
Proof.
  destruct x as [sx|sx| |sx mx ex], y as [sy|sy| |sy my ey];
    cbn -[shl_align SFltb]; try tauto;
    intros Vx Vy Nx Ny _ Hlt; subst; try discriminate; auto.
  - destruct sx, sy; cbn; auto.
  - apply binary_normalize_nonneg.
    pose proof (SFltb_false_aligned _ _ _ _ Vx Vy Hlt) as H.
    unfold cond_Zopp. change IntDef.Z.min with Z.min. lia.
Qed.

Lemma nonneg_add x y : nonneg x -> nonneg y -> nonneg (x + y).
Proof.
  rewrite !nonneg_spec, add_spec. apply SFadd_nonneg.
Qed.

Lemma nonneg_mul_36 x : nonneg x -> nonneg (x * 36).
Proof.
  rewrite !nonneg_spec, mul_spec. intros H.
  apply SFmul_nonneg; auto; vm_compute; auto.
Qed.

Lemma nonneg_mul_2 x : nonneg x -> nonneg (x * 2).
Proof.
  rewrite !nonneg_spec, mul_spec. intros H.
  apply SFmul_nonneg; auto; vm_compute; auto.
Qed.

Lemma below_infinity_spec x : nonneg x -> (x <? infinity)%float = true ->
  match Prim2SF x with S754_infinity _ => False | _ => True end.
Proof.
  rewrite nonneg_spec, ltb_spec.
  change (Prim2SF infinity) with (S754_infinity false).
  destruct (Prim2SF x) as [s|s| |s m e]; cbn; auto.
  intros ->. discriminate.
Qed.

Lemma SFcompare_antisym x y :
  SFcompare y x = option_map CompOpp (SFcompare x y).
Proof.
  destruct x as [sx|sx| |sx mx ex], y as [sy|sy| |sy my ey]; cbn;
    try reflexivity;
    try (destruct sx; reflexivity); try (destruct sy; reflexivity);
    try (destruct sx, sy; reflexivity).
  change (Pos.compare_cont Eq my mx) with (Pos.compare my mx).
  change (Pos.compare_cont Eq mx my) with (Pos.compare mx my).
  rewrite (Z.compare_antisym ex ey), (Pos.compare_antisym mx my).
  destruct sx, sy, (ex ?= ey), (mx ?= my)%positive; reflexivity.
Qed.

Lemma nonneg_sub x y :
  nonneg x -> nonneg y -> (y <? infinity)%float = true ->
  (x <? y)%float = false ->
  nonneg (x - y) /\ (y <=? x)%float = true.
Proof.
  intros Nx Ny Fy Hlt. split.
  - revert Nx Ny. rewrite !nonneg_spec, sub_spec. intros Nx Ny.
    rewrite ltb_spec in Hlt.
    apply SFsub_nonneg; auto using Prim2SF_valid.
    apply below_infinity_spec; [apply nonneg_spec, Ny | exact Fy].
  - revert Nx Ny. rewrite !nonneg_spec. rewrite ltb_spec in Hlt.
    rewrite leb_spec. unfold SFltb in Hlt. unfold SFleb.
    rewrite SFcompare_antisym.
    destruct (Prim2SF x) as [sx|sx| |sx mx ex],
             (Prim2SF y) as [sy|sy| |sy my ey];
      cbn -[SFcompare]; try tauto; intros _ _;
      destruct (SFcompare _ _) as [[]|] eqn:E;
      try discriminate; try reflexivity; cbn in E; try discriminate.
Qed.

(** ** The library functions on examples *)

Example Split_keeps_empty_pieces :
  Split "a,b,,c" "," = ["a"; "b"; ""; "c"] /\ Split "" "," = [""].
Proof. split; reflexivity. Qed.

Example TrimSpace_ascii :
  TrimSpace (String (ascii_of_nat 9) "  bet: red, 0, 10 "
             ++ String (ascii_of_nat 13) EmptyString)
  = "bet: red, 0, 10".
Proof. reflexivity. Qed.

(** U+00A0 before and U+2003 after the text are white space; a lone byte
    0xC2 is not. *)
Example TrimSpace_unicode :
  TrimSpace (string_of_list_ascii
               (map ascii_of_nat [194; 160; 97; 226; 128; 131]%nat)) = "a"
  /\ TrimSpace (string_of_list_ascii (map ascii_of_nat [194; 97]%nat))
     = string_of_list_ascii (map ascii_of_nat [194; 97]%nat).
Proof. split; reflexivity. Qed.

Example Atoi_examples :
  Atoi "-12" = inl (-12) /\ Atoi "+7" = inl 7 /\ Atoi "007" = inl 7
  /\ Atoi "" = inr ErrSyntax /\ Atoi "+" = inr ErrSyntax
  /\ Atoi "1_000" = inr ErrSyntax /\ Atoi "2.5" = inr ErrSyntax
  /\ Atoi "9223372036854775807" = inl 9223372036854775807
  /\ Atoi "9223372036854775808" = inr ErrRange
  /\ Atoi "-9223372036854775808" = inl (-9223372036854775808).
Proof. repeat split; reflexivity. Qed.

(** The parses the specification lists as testable. *)
Example parse_bankroll_and_bet :
  ParseStrategy ParseFloatPlain
    (unlines ["bankroll: 100"; "bet: red, 0, 10"; ""])
  = inl {| InitialBankroll := 100;
           Bets := [{| Type_ := "red"; Value := 0; Amount := 10 |}] |}.
Proof. vm_compute. reflexivity. Qed.

Example parse_four_fields :
  ParseStrategy ParseFloatPlain (unlines ["bet: number, 1, 2, 3"; ""])
  = inr (MalformedBet "bet: number, 1, 2, 3").
Proof. vm_compute. reflexivity. Qed.

Example parse_bad_bankroll :
  ParseStrategy ParseFloatPlain (unlines ["bankroll: abc"; ""])
  = inr (InvalidBankroll ErrSyntax).
Proof. vm_compute. reflexivity. Qed.

(** ** The wheel *)

Lemma NewRouletteWheel_Numbers :
  Numbers NewRouletteWheel = map Z.of_nat (seq 1 36) ++ [0; 0].
Proof. reflexivity. Qed.

Lemma contains_In slice val : contains slice val = true <-> In val slice.
Proof.
  induction slice as [|item rest IH]; cbn.
  - split; [discriminate | tauto].
  - destruct (Z.eqb_spec item val) as [E|E].
    + split; auto.
    + rewrite IH. split; [auto | intros [H|H]; [contradiction | exact H]].
Qed.

Lemma contains_false slice val : contains slice val = false <-> ~ In val slice.
Proof.
  rewrite <- contains_In. destruct (contains slice val); split; congruence.
Qed.

(** ** The simulation loop *)

Section SimulatorFacts.

Variable rs : RandSource.

Lemma Spin_In (s : rng rs) :
  In (fst (Spin rs NewRouletteWheel s)) (Numbers NewRouletteWheel).
Proof.
  unfold Spin.
  pose proof (Intn_range rs
                (Z.of_nat (List.length (Numbers NewRouletteWheel))) s) as H.
  destruct (Intn rs _ s) as [k s']. cbn [fst] in *.
  apply nth_In.
  change (List.length (Numbers NewRouletteWheel)) with 38%nat in *. lia.
Qed.

Lemma playRound_nil w bankroll : playRound [] w bankroll = bankroll.
Proof. reflexivity. Qed.

Lemma games_no_bets wheel n : forall s bankroll,
  games rs wheel [] n s bankroll = bankroll.
Proof.
  induction n as [|n IH]; intros s bankroll; cbn [games].
  - reflexivity.
  - destruct (Spin rs wheel s) as [w s']. rewrite playRound_nil. apply IH.
Qed.

Lemma games_ext wheel bets bets' n :
  (forall w bankroll, playRound bets w bankroll = playRound bets' w bankroll) ->
  forall s bankroll,
    games rs wheel bets n s bankroll = games rs wheel bets' n s bankroll.
Proof.
  intros E. induction n as [|n IH]; intros s bankroll; cbn [games].
  - reflexivity.
  - destruct (Spin rs wheel s) as [w s']. rewrite E. apply IH.
Qed.

End SimulatorFacts.

(** C4 *)
Theorem simulate_zero_games_or_no_bets (rs : RandSource) :
  (forall strategy s,
     SimulateRoulette rs strategy 0 s = InitialBankroll strategy)
  /\ (forall strategy numGames s,
        Bets strategy = [] ->
        SimulateRoulette rs strategy numGames s = InitialBankroll strategy).
Proof.
  split.
  - reflexivity.
  - intros strategy numGames s E. unfold SimulateRoulette. rewrite E.
    apply games_no_bets.
Qed.

(** ** Settlement *)

Lemma rem2_even w : (Z.rem w 2 =? 0) = Z.even w.
Proof.
  destruct (Z.eqb_spec (Z.rem w 2) 0) as [E|E]; symmetry.
  - apply Z.even_spec. exists (Z.quot w 2).
    pose proof (Z.quot_rem' w 2). lia.
  - destruct (Z.even w) eqn:Ev; [|reflexivity].
    apply Z.even_spec in Ev. destruct Ev as [k ->].
    exfalso. apply E. rewrite Z.mul_comm. apply Z.rem_mul. lia.
Qed.

Lemma credit_number bet w : Type_ bet = "number" ->
  credit bet w = if Value bet =? w then Some (Amount bet * 36)%float else None.
Proof. intros E. unfold credit. rewrite E. reflexivity. Qed.

Lemma credit_even bet w : Type_ bet = "even" ->
  credit bet w =
  if Z.even w && negb (w =? 0) then Some (Amount bet * 2)%float else None.
Proof. intros E. unfold credit. rewrite E, rem2_even. reflexivity. Qed.

Lemma credit_odd bet w : Type_ bet = "odd" ->
  credit bet w = if Z.odd w then Some (Amount bet * 2)%float else None.
Proof.
  intros E. unfold credit. rewrite E, rem2_even. cbn [String.eqb Ascii.eqb].
  cbn. rewrite <- Z.negb_even.
  destruct (Z.even w) eqn:Ev; cbn; [reflexivity|].
  destruct (Z.eqb_spec w 0) as [->|]; [discriminate | reflexivity].
Qed.

Lemma credit_red bet w : Type_ bet = "red" ->
  credit bet w =
  if contains redNumbers w then Some (Amount bet * 2)%float else None.
Proof. intros E. unfold credit. rewrite E. reflexivity. Qed.

Lemma credit_black bet w : Type_ bet = "black" ->
  credit bet w =
  if contains blackNumbers w then Some (Amount bet * 2)%float else None.
Proof. intros E. unfold credit. rewrite E. reflexivity. Qed.

Lemma credit_unrecognized bet w :
  recognized (Type_ bet) = false -> credit bet w = None.
Proof.
  unfold recognized, credit. intros H.
  repeat (apply orb_false_elim in H; destruct H as [H ?]).
  repeat match goal with
         | E : String.eqb _ _ = false |- _ => rewrite E; clear E
         end.
  reflexivity.
Qed.

Lemma winsWhen_dec bet w :
  (winsWhen bet w -> credit bet w = Some (payout bet))
  /\ (~ winsWhen bet w -> credit bet w = None).
Proof.
  unfold winsWhen, payout.
  destruct (recognized (Type_ bet)) eqn:R.
  - unfold recognized in R.
    repeat (apply orb_true_elim in R; destruct R as [R|R]);
      apply String.eqb_eq in R.
    + rewrite credit_number, R by exact R. cbn [String.eqb Ascii.eqb].
      destruct (Z.eqb_spec (Value bet) w) as [E|E]; split; intros H;
        try reflexivity.
      * exfalso. apply H. left. auto.
      * exfalso. destruct H as [[_ H]|[[H _]|[[H _]|[[H _]|[H _]]]]];
          try discriminate. congruence.
    + rewrite credit_even, R by exact R. cbn.
      destruct (Z.even w) eqn:Ev, (Z.eqb_spec w 0) as [E0|E0]; cbn;
        split; intros H; try reflexivity; exfalso;
        try (destruct H as [[H _]|[[_ [H1 H2]]|[[H _]|[[H _]|[H _]]]]];
             try discriminate; congruence).
      apply H. right. left. auto.
    + rewrite credit_odd, R by exact R. cbn.
      destruct (Z.odd w) eqn:Od; split; intros H; try reflexivity; exfalso.
      * apply H. right. right. left. auto.
      * destruct H as [[H _]|[[H _]|[[_ H]|[[H _]|[H _]]]]];
          try discriminate; congruence.
    + rewrite credit_red, R by exact R.
      change (String.eqb "red" "number") with false. cbv iota.
      destruct (contains redNumbers w) eqn:C; split; intros H;
        try reflexivity; exfalso.
      * apply H. right. right. right. left. split; auto.
        apply contains_In, C.
      * apply contains_false in C.
        destruct H as [[H _]|[[H _]|[[H _]|[[_ H]|[H _]]]]];
          try discriminate; auto.
    + rewrite credit_black, R by exact R.
      change (String.eqb "black" "number") with false. cbv iota.
      destruct (contains blackNumbers w) eqn:C; split; intros H;
        try reflexivity; exfalso.
      * apply H. right. right. right. right. split; auto.
        apply contains_In, C.
      * apply contains_false in C.
        destruct H as [[H _]|[[H _]|[[H _]|[[H _]|[_ H]]]]];
          try discriminate; auto.
  - rewrite credit_unrecognized by exact R. split; [|reflexivity].
    intros H. exfalso. unfold recognized in R.
    destruct H as [[H _]|[[H _]|[[H _]|[[H _]|[H _]]]]];
      rewrite H in R; discriminate.
Qed.

Lemma placeBet_placed bet w bankroll :
  (bankroll <? Amount bet)%float = false ->
  placeBet w bankroll bet =
  match credit bet w with
  | Some c => (bankroll - Amount bet + c)%float
  | None => (bankroll - Amount bet)%float
  end.
Proof. intros H. unfold placeBet. rewrite H. reflexivity. Qed.

Lemma credit_zero_pocket bet : Type_ bet <> "number" -> credit bet 0 = None.
Proof.
  intros N. apply winsWhen_dec. unfold winsWhen.
  intros [[H _]|[[_ [_ H]]|[[_ H]|[[_ H]|[_ H]]]]].
  - contradiction.
  - apply H. reflexivity.
  - discriminate.
  - apply contains_In in H. discriminate.
  - apply contains_In in H. discriminate.
Qed.

(** C2: settlement of a placed bet follows the payout table. *)
Theorem settlement_follows_payout_table (bet : Bet) (pocket : Z)
    (bankroll : float) :
  (winsWhen bet pocket ->
     credit bet pocket = Some (payout bet)
     /\ ((bankroll <? Amount bet)%float = false ->
         placeBet pocket bankroll bet
         = (bankroll - Amount bet + payout bet)%float))
  /\ (~ winsWhen bet pocket ->
        credit bet pocket = None
        /\ ((bankroll <? Amount bet)%float = false ->
            placeBet pocket bankroll bet = (bankroll - Amount bet)%float))
  /\ (Type_ bet = "number" -> payout bet = (Amount bet * 36)%float)
  /\ (Type_ bet <> "number" -> payout bet = (Amount bet * 2)%float)
  /\ (Type_ bet <> "number" -> credit bet 0 = None)
  /\ (nth 36 (Numbers NewRouletteWheel) 1 = 0
      /\ nth 37 (Numbers NewRouletteWheel) 1 = 0)
  /\ (List.length redNumbers = 18%nat /\ NoDup redNumbers)
  /\ (List.length blackNumbers = 18%nat /\ NoDup blackNumbers).
Proof.
  destruct (winsWhen_dec bet pocket) as [Hw Hl].
  repeat split.
  - auto.
  - intros A. rewrite placeBet_placed, Hw by assumption. reflexivity.
  - auto.
  - intros A. rewrite placeBet_placed, Hl by assumption. reflexivity.
  - intros E. unfold payout. rewrite E. reflexivity.
  - intros N. unfold payout.
    destruct (String.eqb_spec (Type_ bet) "number");
      [contradiction | reflexivity].
  - apply credit_zero_pocket.
  - unfold redNumbers.
    repeat (constructor; [cbn; intuition discriminate|]). constructor.
  - unfold blackNumbers.
    repeat (constructor; [cbn; intuition discriminate|]). constructor.
Qed.

(** ** The wheel's pockets *)

Lemma filter_eqb_count v l :
  List.length (filter (Z.eqb v) l) = count_occ Z.eq_dec l v.
Proof.
  induction l as [|x l IH]; cbn; [reflexivity|].
  destruct (Z.eq_dec x v) as [E|E], (Z.eqb_spec v x) as [E'|E']; cbn;
    congruence.
Qed.

Lemma winningPockets_number bet : Type_ bet = "number" ->
  winningPockets bet = filter (Z.eqb (Value bet)) (Numbers NewRouletteWheel).
Proof.
  intros E. unfold winningPockets. apply filter_ext. intros p.
  rewrite credit_number by exact E. destruct (Value bet =? p); reflexivity.
Qed.

Lemma count_pockets v :
  count_occ Z.eq_dec (Numbers NewRouletteWheel) v =
  if v =? 0 then 2%nat else if (1 <=? v) && (v <=? 36) then 1%nat else 0%nat.
Proof.
  destruct (Z.eqb_spec v 0) as [->|N0]; [reflexivity|].
  destruct ((1 <=? v) && (v <=? 36)) eqn:R.
  - apply andb_prop in R. destruct R as [R1 R2].
    apply Z.leb_le in R1, R2.
    assert (In v (map Z.of_nat (seq 1 36))) as Hin.
    { apply in_map_iff. exists (Z.to_nat v). split; [lia|].
      apply in_seq. lia. }
    assert (Forall (fun v => count_occ Z.eq_dec (Numbers NewRouletteWheel) v
                              = 1%nat) (map Z.of_nat (seq 1 36))) as F.
    { repeat (constructor; [reflexivity|]). constructor. }
    rewrite Forall_forall in F. apply F, Hin.
  - apply count_occ_not_In. rewrite NewRouletteWheel_Numbers.
    intros Hin. apply in_app_or in Hin. destruct Hin as [Hin|Hin].
    + apply in_map_iff in Hin. destruct Hin as [k [<- Hk]].
      apply in_seq in Hk.
      apply andb_false_elim in R. destruct R as [R|R]; apply Z.leb_gt in R; lia.
    + cbn in Hin. lia.
Qed.

(** C6: the wheel has 38 pockets: 1 to 36 once each and 0 twice. *)
Theorem wheel_has_38_pockets :
  List.length (Numbers NewRouletteWheel) = 38%nat
  /\ count_occ Z.eq_dec (Numbers NewRouletteWheel) 0 = 2%nat
  /\ (forall v, 1 <= v <= 36 ->
        count_occ Z.eq_dec (Numbers NewRouletteWheel) v = 1%nat)
  /\ (forall v, In v (Numbers NewRouletteWheel) -> 0 <= v <= 36)
  /\ (forall bet, Type_ bet = "number" ->
        (Value bet = 0 -> winningPockets bet = [0; 0])
        /\ (1 <= Value bet <= 36 -> winningPockets bet = [Value bet])).
Proof.
  split; [reflexivity|]. split; [reflexivity|]. split; [|split].
  - intros v Hv. rewrite count_pockets.
    destruct (Z.eqb_spec v 0); [lia|].
    destruct (Z.leb_spec 1 v), (Z.leb_spec v 36); cbn; lia.
  - intros v Hin. apply (count_occ_In Z.eq_dec) in Hin.
    rewrite count_pockets in Hin.
    destruct (Z.eqb_spec v 0); [lia|].
    destruct (Z.leb_spec 1 v), (Z.leb_spec v 36); cbn in Hin; lia.
  - intros bet E. rewrite winningPockets_number by exact E. split.
    + intros ->. reflexivity.
    + intros Hv.
      assert (In (Value bet) (map Z.of_nat (seq 1 36))) as Hin.
      { apply in_map_iff. exists (Z.to_nat (Value bet)). split; [lia|].
        apply in_seq. lia. }
      assert (Forall (fun v => filter (Z.eqb v) (Numbers NewRouletteWheel)
                                = [v]) (map Z.of_nat (seq 1 36))) as F.
      { repeat (constructor; [reflexivity|]). constructor. }
      rewrite Forall_forall in F. apply F, Hin.
Qed.

(** C8: the red and the black numbers are disjoint, and 0 is in neither. *)
Theorem red_black_disjoint :
  (forall pocket,
     contains redNumbers pocket && contains blackNumbers pocket = false)
  /\ contains redNumbers 0 = false
  /\ contains blackNumbers 0 = false
  /\ List.length redNumbers = 18%nat
  /\ List.length blackNumbers = 18%nat.
Proof.
  repeat split; try reflexivity.
  intros pocket. destruct (contains redNumbers pocket) eqn:R; [|reflexivity].
  apply contains_In in R. cbn [andb].
  assert (Forall (fun p => contains blackNumbers p = false) redNumbers) as F.
  { repeat (constructor; [reflexivity|]). constructor. }
  rewrite Forall_forall in F. apply F, R.
Qed.

(** ** A bet of an unrecognized type *)

Lemma sub_zero_r x : (x - 0)%float = x.
Proof.
  apply Prim2SF_inj. rewrite sub_spec.
  change (Prim2SF 0) with (S754_zero false).
  destruct (Prim2SF x) as [s|s| |s m e]; try reflexivity.
  destruct s; reflexivity.
Qed.

Lemma placeBet_unrecognized bet w bankroll :
  recognized (Type_ bet) = false ->
  placeBet w bankroll bet =
  if (bankroll <? Amount bet)%float then bankroll
  else (bankroll - Amount bet)%float.
Proof.
  intros R. unfold placeBet. rewrite credit_unrecognized by exact R.
  reflexivity.
Qed.

Lemma playRound_app bets bets' w bankroll :
  playRound (bets ++ bets') w bankroll
  = playRound bets' w (playRound bets w bankroll).
Proof. unfold playRound. apply fold_left_app. Qed.

(** C1 (as amended): a bet of an unrecognized type is never credited; when
    it is affordable its amount is debited and stays debited.  It leaves the
    result of the simulation untouched when its amount is 0. *)
Theorem unrecognized_bet_is_never_credited (rs : RandSource) (bet : Bet) :
  recognized (Type_ bet) = false ->
  (forall pocket, credit bet pocket = None)
  /\ (forall pocket bankroll,
        placeBet pocket bankroll bet =
        if (bankroll <? Amount bet)%float then bankroll
        else (bankroll - Amount bet)%float)
  /\ (Amount bet = 0%float ->
      forall initial pre post numGames s,
        SimulateRoulette rs
          {| InitialBankroll := initial; Bets := pre ++ bet :: post |}
          numGames s
        = SimulateRoulette rs
            {| InitialBankroll := initial; Bets := pre ++ post |}
            numGames s).
Proof.
  intros R. split; [|split].
  - intros pocket. apply credit_unrecognized, R.
  - intros pocket bankroll. apply placeBet_unrecognized, R.
  - intros A initial pre post numGames s. unfold SimulateRoulette.
    cbn [Bets InitialBankroll]. apply games_ext. intros w bankroll.
    rewrite !playRound_app. generalize (playRound pre w bankroll).
    intros b. unfold playRound. cbn [fold_left]. f_equal.
    rewrite placeBet_unrecognized by exact R.
    rewrite A, sub_zero_r. destruct (b <? 0)%float; reflexivity.
Qed.

(** The hypothesis of the theorem above holds of a bet on a split, and the
    theorem applies to it. *)
Lemma unrecognized_bet_is_never_credited_witness :
  let bet := {| Type_ := "split"; Value := 17; Amount := 0 |} in
  recognized (Type_ bet) = false
  /\ (forall pocket, credit bet pocket = None)
  /\ (forall pocket bankroll,
        placeBet pocket bankroll bet =
        if (bankroll <? Amount bet)%float then bankroll
        else (bankroll - Amount bet)%float)
  /\ (Amount bet = 0%float ->
      forall initial pre post numGames s,
        SimulateRoulette lcg
          {| InitialBankroll := initial; Bets := pre ++ bet :: post |}
          numGames s
        = SimulateRoulette lcg
            {| InitialBankroll := initial; Bets := pre ++ post |}
            numGames s).
Proof.
  intros bet. split; [reflexivity|].
  apply (unrecognized_bet_is_never_credited lcg bet). reflexivity.
Defined.

(** C1 as stated fails: with a bankroll of 100, one bet of type foo and
    amount 10 ends a game at 90; with the bet removed the game ends at
    100. *)
Lemma unrecognized_bet_alters_bankroll :
  recognized "foo" = false
  /\ SimulateRoulette lcg
       {| InitialBankroll := 100;
          Bets := [{| Type_ := "foo"; Value := 0; Amount := 10 |}] |} 1 0
     = 90%float
  /\ SimulateRoulette lcg {| InitialBankroll := 100; Bets := [] |} 1 0
     = 100%float
  /\ (90 =? 100)%float = false.
Proof. repeat split; vm_compute; reflexivity. Qed.

(** ** The bankroll stays non-negative *)

Section Invariant.

Variable rs : RandSource.

Lemma credit_nonneg bet w c :
  nonneg (Amount bet) -> credit bet w = Some c -> nonneg c.
Proof.
  intros N. unfold credit.
  repeat match goal with
         | |- (if ?b then _ else _) = Some _ -> _ => destruct b
         end;
    intros E; inversion E; subst;
    auto using nonneg_mul_36, nonneg_mul_2.
Qed.

Lemma placeBetLog_sound w st bet :
  soundBet bet -> soundState st -> soundState (placeBetLog w st bet).
Proof.
  intros [Na Fa] [Nb Hl]. destruct st as [bankroll log]. cbn [fst snd] in *.
  unfold placeBetLog.
  destruct (bankroll <? Amount bet)%float eqn:Lt.
  - split; assumption.
  - destruct (nonneg_sub bankroll (Amount bet) Nb Na Fa Lt) as [Ns Le].
    assert (Forall soundWrite (log ++ [Debit bankroll (Amount bet)])) as Hl'.
    { apply Forall_app. split; [exact Hl|].
      constructor; [|constructor]. split; assumption. }
    destruct (credit bet w) as [c|] eqn:C.
    + pose proof (credit_nonneg bet w c Na C) as Nc.
      split; cbn [fst snd].
      * apply nonneg_add; assumption.
      * apply Forall_app. split; [exact Hl'|].
        constructor; [|constructor]. split; [|exact I].
        cbn [written]. apply nonneg_add; assumption.
    + split; assumption.
Qed.

Lemma playRoundLog_sound w bets : forall st,
  Forall soundBet bets -> soundState st -> soundState (playRoundLog bets w st).
Proof.
  unfold playRoundLog.
  induction bets as [|bet bets IH]; intros st Hb Hs; cbn [fold_left].
  - exact Hs.
  - inversion Hb; subst. apply IH; [assumption|].
    apply placeBetLog_sound; assumption.
Qed.

Lemma gamesLog_sound wheel bets n : forall s st,
  Forall soundBet bets -> soundState st ->
  soundState (gamesLog rs wheel bets n s st).
Proof.
  induction n as [|n IH]; intros s st Hb Hs; cbn [gamesLog].
  - exact Hs.
  - destruct (Spin rs wheel s) as [w s']. apply IH; [assumption|].
    apply playRoundLog_sound; assumption.
Qed.

(** The recording loops compute the bankroll of the plain ones. *)
Lemma placeBetLog_fst w st bet :
  fst (placeBetLog w st bet) = placeBet w (fst st) bet.
Proof.
  destruct st as [bankroll log]. unfold placeBetLog, placeBet. cbn [fst].
  destruct (bankroll <? Amount bet)%float; [reflexivity|].
  destruct (credit bet w); reflexivity.
Qed.

Lemma playRoundLog_fst w bets : forall st,
  fst (playRoundLog bets w st) = playRound bets w (fst st).
Proof.
  unfold playRoundLog, playRound.
  induction bets as [|bet bets IH]; intros st; cbn [fold_left].
  - reflexivity.
  - rewrite IH, placeBetLog_fst. reflexivity.
Qed.

Lemma gamesLog_fst wheel bets n : forall s st,
  fst (gamesLog rs wheel bets n s st) = games rs wheel bets n s (fst st).
Proof.
  induction n as [|n IH]; intros s st; cbn [gamesLog games].
  - reflexivity.
  - destruct (Spin rs wheel s) as [w s']. rewrite IH, playRoundLog_fst.
    reflexivity.
Qed.

End Invariant.

(** C3 (as amended): with a non-negative initial bankroll and bet amounts
    that are non-negative and finite, every value a debit or a credit
    writes to the bankroll is non-negative, every debit finds a bankroll
    that covers its amount, and the final bankroll is non-negative; a bet
    the bankroll does not cover is skipped, with no debit and no credit. *)
Theorem bankroll_never_negative (rs : RandSource) (strategy : Strategy)
    (numGames : Z) (s : rng rs) :
  nonneg (InitialBankroll strategy) ->
  (forall bet, In bet (Bets strategy) ->
     nonneg (Amount bet) /\ (Amount bet <? infinity)%float = true) ->
  (fst (SimulateRouletteLog rs strategy numGames s)
   = SimulateRoulette rs strategy numGames s)
  /\ nonneg (SimulateRoulette rs strategy numGames s)
  /\ Forall (fun w => nonneg (written w))
       (snd (SimulateRouletteLog rs strategy numGames s))
  /\ Forall (fun w => match w with
                      | Debit bankroll amount =>
                          (amount <=? bankroll)%float = true
                      | Credit _ _ => True
                      end)
       (snd (SimulateRouletteLog rs strategy numGames s))
  /\ (forall pocket bankroll log bet,
        (bankroll <? Amount bet)%float = true ->
        placeBetLog pocket (bankroll, log) bet = (bankroll, log)
        /\ placeBet pocket bankroll bet = bankroll).
Proof.
  intros Ni Hb.
  assert (fst (SimulateRouletteLog rs strategy numGames s)
          = SimulateRoulette rs strategy numGames s) as E.
  { unfold SimulateRouletteLog, SimulateRoulette. apply gamesLog_fst. }
  assert (soundState (SimulateRouletteLog rs strategy numGames s)) as [Nf Hl].
  { unfold SimulateRouletteLog. apply gamesLog_sound.
    - apply Forall_forall. intros bet Hin. exact (Hb bet Hin).
    - split; [exact Ni | constructor]. }
  split; [exact E|]. split; [rewrite <- E; exact Nf|].
  split; [|split].
  - eapply Forall_impl; [|exact Hl]. intros w [H _]. exact H.
  - eapply Forall_impl; [|exact Hl]. intros w [_ H]. exact H.
  - intros pocket bankroll log bet Lt. unfold placeBetLog, placeBet.
    rewrite Lt. split; reflexivity.
Qed.

(** The theorem at the strategy of the specification's example: a bankroll
    of 0 against a bet of 10 on number 5, over 100 games. *)
Lemma bankroll_never_negative_witness :
  let strategy :=
    {| InitialBankroll := 0;
       Bets := [{| Type_ := "number"; Value := 5; Amount := 10 |}] |} in
  nonneg (SimulateRoulette lcg strategy 100 0)
  /\ Forall (fun w => nonneg (written w))
       (snd (SimulateRouletteLog lcg strategy 100 0)).
Proof.
  intros strategy.
  assert (nonneg (InitialBankroll strategy)) as Ni by reflexivity.
  assert (forall bet, In bet (Bets strategy) ->
            nonneg (Amount bet) /\ (Amount bet <? infinity)%float = true)
    as Hb.
  { intros bet [<-|[]]. split; reflexivity. }
  destruct (bankroll_never_negative lcg strategy 100 0 Ni Hb)
    as [_ [Nf [Hw _]]].
  split; assumption.
Defined.

(** C3 as stated fails on infinite amounts: an infinite bankroll covers an
    infinite bet, and the debit writes NaN, which is not [>= 0]. *)
Lemma infinite_bet_makes_bankroll_nan :
  let strategy :=
    {| InitialBankroll := infinity;
       Bets := [{| Type_ := "red"; Value := 0; Amount := infinity |}] |} in
  nonneg (InitialBankroll strategy)
  /\ Forall (fun bet => nonneg (Amount bet)) (Bets strategy)
  /\ snd (SimulateRouletteLog lcg strategy 1 0)
     = [Debit infinity infinity; Credit nan infinity]
  /\ (0 <=? written (Debit infinity infinity))%float = false
  /\ (0 <=? SimulateRoulette lcg strategy 1%Z 0%Z)%float = false.
Proof.
  intros strategy. split; [reflexivity|]. split.
  - constructor; [reflexivity | constructor].
  - repeat split; vm_compute; reflexivity.
Qed.

(** ** The parser *)

Section ParserSpec.

Variable ParseFloat : string -> float + NumError.

Lemma bankroll_not_bet line :
  HasPrefix line "bankroll:" = true -> HasPrefix line "bet:" = false.
Proof.
  unfold HasPrefix. destruct line as [|c1 [|c2 r]]; cbn [prefix];
    try discriminate.
  - destruct (ascii_dec _ c1); discriminate.
  - destruct (ascii_dec _ c1); [|discriminate].
    destruct (ascii_dec _ c2) as [<-|]; [|discriminate].
    intros _. destruct (ascii_dec _ _); [discriminate | reflexivity].
Qed.

Lemma parseLine_bankroll st line :
  HasPrefix (TrimSpace line) "bankroll:" = true ->
  parseLine ParseFloat st line =
  match ParseFloat (bankrollText (TrimSpace line)) with
  | inr err => inr (InvalidBankroll err)
  | inl bankroll => inl {| InitialBankroll := bankroll; Bets := Bets st |}
  end.
Proof. intros H. unfold parseLine. rewrite H. reflexivity. Qed.

Lemma parseLine_bet st line :
  HasPrefix (TrimSpace line) "bet:" = true ->
  parseLine ParseFloat st line =
  let l := TrimSpace line in
  if negb (Nat.eqb (List.length (betParts l)) 3) then inr (MalformedBet l)
  else
    match Atoi (betField 1 l) with
    | inr err => inr (InvalidBetValue err)
    | inl v =>
        match ParseFloat (betField 2 l) with
        | inr err => inr (InvalidBetAmount err)
        | inl a =>
            inl {| InitialBankroll := InitialBankroll st;
                   Bets := Bets st ++
                     [{| Type_ := betField 0 l; Value := v; Amount := a |}] |}
        end
    end.
Proof.
  intros H. unfold parseLine.
  destruct (HasPrefix (TrimSpace line) "bankroll:") eqn:B.
  - apply bankroll_not_bet in B. congruence.
  - rewrite H. reflexivity.
Qed.

Lemma parseLine_ignored st line :
  isBankrollLine line = false -> isBetLine line = false ->
  parseLine ParseFloat st line = inl st.
Proof.
  unfold isBankrollLine, isBetLine, parseLine. intros -> ->. reflexivity.
Qed.

(** A line makes [parseLine] fail exactly when it is faulty, and the error
    is one of its faults. *)
Lemma parseLine_error st line err :
  parseLine ParseFloat st line = inr err ->
  faulty ParseFloat (TrimSpace line) err.
Proof.
  destruct (HasPrefix (TrimSpace line) "bankroll:") eqn:B.
  - rewrite parseLine_bankroll by exact B.
    destruct (ParseFloat _) as [v|e] eqn:P; intros E; inversion E; subst.
    apply faulty_bankroll; assumption.
  - destruct (HasPrefix (TrimSpace line) "bet:") eqn:T.
    + rewrite parseLine_bet by exact T. cbv zeta.
      destruct (Nat.eqb_spec (List.length (betParts (TrimSpace line))) 3)
        as [L|L]; cbn [negb].
      * destruct (Atoi _) as [v|e] eqn:A.
        -- destruct (ParseFloat _) as [a|e] eqn:P; intros E; inversion E;
             subst. apply faulty_amount; assumption.
        -- intros E; inversion E; subst. apply faulty_value; assumption.
      * intros E; inversion E; subst. apply faulty_fields; assumption.
    + rewrite parseLine_ignored by assumption. discriminate.
Qed.

Lemma faulty_parseLine st line err :
  faulty ParseFloat (TrimSpace line) err ->
  exists err', parseLine ParseFloat st line = inr err'.
Proof.
  intros F. inversion F; subst.
  - rewrite parseLine_bankroll by assumption.
    rewrite H0. eauto.
  - rewrite parseLine_bet by assumption. cbv zeta.
    destruct (Nat.eqb_spec (List.length (betParts (TrimSpace line))) 3);
      [contradiction|]. cbn [negb]. eauto.
  - rewrite parseLine_bet by assumption. cbv zeta.
    rewrite H0, Nat.eqb_refl, H1. cbn [negb]. eauto.
  - rewrite parseLine_bet by assumption. cbv zeta.
    rewrite H0, Nat.eqb_refl, H1. cbn [negb].
    destruct (Atoi _); eauto.
Qed.

Lemma parseLines_error lines : forall st,
  (exists err, parseLines ParseFloat lines st = inr err)
  <-> (exists line err,
         In line lines /\ faulty ParseFloat (TrimSpace line) err).
Proof.
  induction lines as [|line rest IH]; intros st; cbn [parseLines].
  - split; [intros [err E]; discriminate | intros [l [e [[] _]]]].
  - destruct (parseLine ParseFloat st line) as [st'|e] eqn:P.
    + rewrite IH. split.
      * intros [l [err [Hin F]]]. exists l, err. split; [right|]; assumption.
      * intros [l [err [[<-|Hin] F]]].
        -- destruct (faulty_parseLine st line err F) as [e' E]. congruence.
        -- exists l, err. split; assumption.
    + split; [|eauto]. intros _. exists line, e. split; [left; reflexivity|].
      eapply parseLine_error, P.
Qed.

Lemma parseLines_error_kind lines : forall st err,
  parseLines ParseFloat lines st = inr err ->
  exists line, In line lines /\ faulty ParseFloat (TrimSpace line) err.
Proof.
  induction lines as [|line rest IH]; intros st err; cbn [parseLines].
  - discriminate.
  - destruct (parseLine ParseFloat st line) as [st'|e] eqn:P.
    + intros E. destruct (IH _ _ E) as [l [Hin F]].
      exists l. split; [right|]; assumption.
    + intros E. inversion E; subst. exists line. split; [left; reflexivity|].
      eapply parseLine_error, P.
Qed.

Lemma parseLines_filter lines : forall st,
  parseLines ParseFloat
    (filter (fun l => isBankrollLine l || isBetLine l) lines) st
  = parseLines ParseFloat lines st.
Proof.
  induction lines as [|line rest IH]; intros st; cbn [filter parseLines].
  - reflexivity.
  - destruct (isBankrollLine line) eqn:B; cbn [orb parseLines].
    + destruct (parseLine ParseFloat st line); [apply IH | reflexivity].
    + destruct (isBetLine line) eqn:T; cbn [parseLines].
      * destruct (parseLine ParseFloat st line); [apply IH | reflexivity].
      * rewrite parseLine_ignored by assumption. apply IH.
Qed.

(** C5: the parse fails exactly when some trimmed line is faulty, with the
    error of a faulty line; every line that is neither a bankroll line nor a
    bet line is ignored. *)
Theorem parse_fails_iff_faulty_line (input : string) :
  ((exists err, ParseStrategy ParseFloat input = inr err)
   <-> (exists line err,
          In line (map TrimSpace (Split input LF))
          /\ faulty ParseFloat line err))
  /\ (forall err, ParseStrategy ParseFloat input = inr err ->
        exists line,
          In line (map TrimSpace (Split input LF))
          /\ faulty ParseFloat line err)
  /\ (forall strategy line,
        isBankrollLine line = false -> isBetLine line = false ->
        parseLine ParseFloat strategy line = inl strategy)
  /\ ParseStrategy ParseFloat input
     = parseLines ParseFloat
         (filter (fun l => isBankrollLine l || isBetLine l)
                 (Split input LF))
         {| InitialBankroll := 0; Bets := [] |}.
Proof.
  unfold ParseStrategy. split; [|split; [|split]].
  - rewrite parseLines_error. split.
    + intros [l [err [Hin F]]]. exists (TrimSpace l), err.
      split; [apply in_map, Hin | exact F].
    + intros [l [err [Hin F]]]. apply in_map_iff in Hin.
      destruct Hin as [l0 [<- Hin]]. exists l0, err. split; assumption.
  - intros err E. destruct (parseLines_error_kind _ _ _ E) as [l [Hin F]].
    exists (TrimSpace l). split; [apply in_map, Hin | exact F].
  - intros strategy line. apply parseLine_ignored.
  - symmetry. apply parseLines_filter.
Qed.

(** *** What a successful parse returns *)

Lemma parseLines_app pre post : forall st,
  parseLines ParseFloat (pre ++ post) st =
  match parseLines ParseFloat pre st with
  | inl st' => parseLines ParseFloat post st'
  | inr err => inr err
  end.
Proof.
  induction pre as [|line pre IH]; intros st; cbn [app parseLines].
  - reflexivity.
  - destruct (parseLine ParseFloat st line); [apply IH | reflexivity].
Qed.

Lemma betOf_bankroll line :
  isBankrollLine line = true -> betOf ParseFloat line = None.
Proof.
  unfold isBankrollLine, betOf. intros B.
  rewrite (bankroll_not_bet _ B). reflexivity.
Qed.

Lemma betOf_not_bet line :
  isBetLine line = false -> betOf ParseFloat line = None.
Proof. unfold isBetLine, betOf. intros ->. reflexivity. Qed.

(** One accepted line: a bankroll line overwrites the bankroll and leaves
    the bets, a bet line appends its bet and leaves the bankroll, any other
    line changes nothing. *)
Lemma parseLine_ok st line st' :
  parseLine ParseFloat st line = inl st' ->
  Bets st' = Bets st ++ collectBets ParseFloat [line]
  /\ (if isBankrollLine line
      then ParseFloat (bankrollText (TrimSpace line))
           = inl (InitialBankroll st')
      else InitialBankroll st' = InitialBankroll st).
Proof.
  cbn [collectBets]. unfold isBankrollLine.
  destruct (HasPrefix (TrimSpace line) "bankroll:") eqn:B.
  - rewrite parseLine_bankroll by exact B.
    rewrite betOf_bankroll by exact B.
    destruct (ParseFloat _) as [v|e]; intros E; inversion E; subst.
    cbn [Bets InitialBankroll]. rewrite app_nil_r. split; reflexivity.
  - destruct (HasPrefix (TrimSpace line) "bet:") eqn:T.
    + rewrite parseLine_bet by exact T. cbv zeta. unfold betOf. rewrite T.
      destruct (Nat.eqb (List.length (betParts (TrimSpace line))) 3);
        cbn [negb andb]; [|discriminate].
      destruct (Atoi _) as [v|e]; [|discriminate].
      destruct (ParseFloat _) as [a|e]; [|discriminate].
      intros E; inversion E; subst. cbn [Bets InitialBankroll].
      split; reflexivity.
    + rewrite parseLine_ignored by assumption.
      rewrite betOf_not_bet by exact T.
      intros E; inversion E; subst. rewrite app_nil_r. split; reflexivity.
Qed.

Lemma collectBets_cons line rest :
  collectBets ParseFloat (line :: rest)
  = collectBets ParseFloat [line] ++ collectBets ParseFloat rest.
Proof. cbn [collectBets]. destruct (betOf ParseFloat line); reflexivity. Qed.

Lemma parseLines_bets lines : forall st st',
  parseLines ParseFloat lines st = inl st' ->
  Bets st' = Bets st ++ collectBets ParseFloat lines.
Proof.
  induction lines as [|line rest IH]; intros st st'; cbn [parseLines].
  - intros E; inversion E; subst. cbn. rewrite app_nil_r. reflexivity.
  - destruct (parseLine ParseFloat st line) as [st1|e] eqn:P; [|discriminate].
    intros E. apply parseLine_ok in P. destruct P as [P _].
    rewrite (collectBets_cons line rest), (IH _ _ E), P, app_assoc.
    reflexivity.
Qed.

Lemma parseLines_keeps_bankroll lines : forall st st',
  (forall l, In l lines -> isBankrollLine l = false) ->
  parseLines ParseFloat lines st = inl st' ->
  InitialBankroll st' = InitialBankroll st.
Proof.
  induction lines as [|line rest IH]; intros st st' N; cbn [parseLines].
  - intros E; inversion E; reflexivity.
  - destruct (parseLine ParseFloat st line) as [st1|e] eqn:P; [|discriminate].
    intros E. apply parseLine_ok in P. destruct P as [_ P].
    rewrite (N line) in P by (left; reflexivity).
    rewrite (IH st1 st') by (auto using in_cons). exact P.
Qed.

Lemma collectBets_without_bankroll lines :
  collectBets ParseFloat (filter (fun l => negb (isBankrollLine l)) lines)
  = collectBets ParseFloat lines.
Proof.
  induction lines as [|line rest IH]; cbn [filter]; [reflexivity|].
  destruct (isBankrollLine line) eqn:B; cbn [negb].
  - rewrite (collectBets_cons line rest). cbn [collectBets].
    rewrite betOf_bankroll by exact B. exact IH.
  - rewrite (collectBets_cons line rest),
      (collectBets_cons line (filter _ rest)), IH.
    reflexivity.
Qed.

(** C7: when the parse returns a strategy, its bankroll is the value of the
    last bankroll line, and its bets are those of the other lines. *)
Theorem last_bankroll_line_wins (input : string) (strategy : Strategy)
    (pre post : list string) (line : string) :
  ParseStrategy ParseFloat input = inl strategy ->
  Split input LF = pre ++ line :: post ->
  isBankrollLine line = true ->
  (forall l, In l post -> isBankrollLine l = false) ->
  ParseFloat (bankrollText (TrimSpace line))
  = inl (InitialBankroll strategy)
  /\ Bets strategy
     = collectBets ParseFloat (filter (fun l => negb (isBankrollLine l))
                           (Split input LF)).
Proof.
  unfold ParseStrategy. intros E S B N. split.
  - rewrite S, parseLines_app in E.
    destruct (parseLines ParseFloat pre _) as [st1|e]; [|discriminate].
    cbn [parseLines] in E.
    destruct (parseLine ParseFloat st1 line) as [st2|e] eqn:P; [|discriminate].
    apply parseLine_ok in P. destruct P as [_ P]. rewrite B in P.
    rewrite (parseLines_keeps_bankroll _ _ _ N E). exact P.
  - rewrite collectBets_without_bankroll.
    apply parseLines_bets in E. exact E.
Qed.

(** C9 (as amended): without a bankroll line, a strategy the parse returns
    has bankroll 0 and the bets of the bet lines in order; the parse fails
    only on a faulty bet line, and succeeds when no line is faulty. *)
Theorem no_bankroll_line_defaults_to_zero (input : string) :
  (forall l, In l (Split input LF) -> isBankrollLine l = false) ->
  (forall strategy,
     ParseStrategy ParseFloat input = inl strategy ->
     InitialBankroll strategy = 0%float
     /\ Bets strategy = collectBets ParseFloat (Split input LF))
  /\ (forall err,
        ParseStrategy ParseFloat input = inr err ->
        exists line,
          In line (Split input LF) /\ isBetLine line = true
          /\ faulty ParseFloat (TrimSpace line) err)
  /\ ((forall line err,
         In line (Split input LF) ->
         ~ faulty ParseFloat (TrimSpace line) err) ->
      exists strategy, ParseStrategy ParseFloat input = inl strategy).
Proof.
  unfold ParseStrategy. intros N. split; [|split].
  - intros strategy E. split.
    + apply (parseLines_keeps_bankroll _ _ _ N E).
    + apply parseLines_bets in E. exact E.
  - intros err E. destruct (parseLines_error_kind _ _ _ E) as [l [Hin F]].
    exists l. split; [exact Hin|]. split; [|exact F].
    specialize (N l Hin). unfold isBankrollLine in N. unfold isBetLine.
    inversion F; subst; congruence.
  - intros H.
    destruct (parseLines ParseFloat (Split input LF) _) as [st|e] eqn:E.
    + eauto.
    + destruct (parseLines_error_kind _ _ _ E) as [l [Hin F]].
      destruct (H l e Hin F).
Qed.

(** C10: negative numbers pass the parser: what [ParseFloat] returns is
    stored as it is, with no check of its sign. *)
Theorem parser_accepts_negative_numbers :
  ParseFloat "-5" = inl (-5)%float ->
  ParseStrategy ParseFloat "bankroll: -5"
  = inl {| InitialBankroll := -5; Bets := [] |}
  /\ ParseStrategy ParseFloat "bet: red, 0, -5"
     = inl {| InitialBankroll := 0;
              Bets := [{| Type_ := "red"; Value := 0; Amount := -5 |}] |}
  /\ (-5 <? 0)%float = true.
Proof.
  intros H. split; [|split].
  - unfold ParseStrategy. cbn [parseLines].
    change (Split "bankroll: -5" LF) with ["bankroll: -5"].
    cbn [parseLines]. rewrite parseLine_bankroll by reflexivity.
    change (bankrollText (TrimSpace "bankroll: -5")) with "-5".
    rewrite H. reflexivity.
  - unfold ParseStrategy.
    change (Split "bet: red, 0, -5" LF) with ["bet: red, 0, -5"].
    cbn [parseLines]. rewrite parseLine_bet by reflexivity. cbv zeta.
    change (betField 2 (TrimSpace "bet: red, 0, -5")) with "-5".
    change (betField 1 (TrimSpace "bet: red, 0, -5")) with "0".
    change (betField 0 (TrimSpace "bet: red, 0, -5")) with "red".
    change (List.length (betParts (TrimSpace "bet: red, 0, -5"))) with 3%nat.
    rewrite H. reflexivity.
  - reflexivity.
Qed.

End ParserSpec.

(** *** The parser on examples *)

(** The theorem at a text with two bankroll lines: the second one wins, and
    the two bets are those of the bet lines. *)
Lemma last_bankroll_line_wins_witness :
  let input :=
    unlines ["bankroll: 100"; "bet: red, 0, 10"; "bankroll: 250";
             "bet: odd, 0, 5"] in
  let strategy :=
    {| InitialBankroll := 250;
       Bets := [{| Type_ := "red"; Value := 0; Amount := 10 |};
                {| Type_ := "odd"; Value := 0; Amount := 5 |}] |} in
  ParseStrategy ParseFloatPlain input = inl strategy
  /\ ParseFloatPlain (bankrollText (TrimSpace "bankroll: 250"))
     = inl (InitialBankroll strategy)
  /\ Bets strategy
     = collectBets ParseFloatPlain
         (filter (fun l => negb (isBankrollLine l)) (Split input LF)).
Proof.
  intros input strategy. split; [vm_compute; reflexivity|].
  apply (last_bankroll_line_wins ParseFloatPlain input strategy
           ["bankroll: 100"; "bet: red, 0, 10"] ["bet: odd, 0, 5"]
           "bankroll: 250").
  - vm_compute. reflexivity.
  - vm_compute. reflexivity.
  - vm_compute. reflexivity.
  - intros l [<-|[]]. vm_compute. reflexivity.
Defined.

(** The theorem at a text with two bets, a blank line and a line of
    another kind, and no bankroll line. *)
Lemma no_bankroll_line_defaults_to_zero_witness :
  let input :=
    unlines ["bet: red, 0, 10"; "  "; "# stake"; "bet: number, 17, 2.5"] in
  forallb (fun l => negb (isBankrollLine l)) (Split input LF) = true
  /\ ParseStrategy ParseFloatPlain input
     = inl {| InitialBankroll := 0;
              Bets := [{| Type_ := "red"; Value := 0; Amount := 10 |};
                       {| Type_ := "number"; Value := 17;
                          Amount := 2.5 |}] |}
  /\ (forall strategy,
        ParseStrategy ParseFloatPlain input = inl strategy ->
        InitialBankroll strategy = 0%float
        /\ Bets strategy = collectBets ParseFloatPlain (Split input LF)).
Proof.
  intros input. split; [vm_compute; reflexivity|].
  split; [vm_compute; reflexivity|].
  apply (no_bankroll_line_defaults_to_zero ParseFloatPlain input).
  intros l Hin.
  assert (forallb (fun l => negb (isBankrollLine l)) (Split input LF) = true)
    as F by (vm_compute; reflexivity).
  rewrite forallb_forall in F. specialize (F l Hin).
  destruct (isBankrollLine l); [discriminate | reflexivity].
Defined.

(** C9 as stated fails: a text with no bankroll line and a bet line of one
    field does not parse. *)
Lemma malformed_bet_without_bankroll_fails :
  forallb (fun l => negb (isBankrollLine l)) (Split "bet: x" LF) = true
  /\ ParseStrategy ParseFloatPlain "bet: x" = inr (MalformedBet "bet: x").
Proof. split; vm_compute; reflexivity. Qed.

(** The theorem at a [ParseFloat] that reads plain decimal literals. *)
Lemma parser_accepts_negative_numbers_witness :
  ParseFloatPlain "-5" = inl (-5)%float
  /\ ParseStrategy ParseFloatPlain "bankroll: -5"
     = inl {| InitialBankroll := -5; Bets := [] |}
  /\ ParseStrategy ParseFloatPlain "bet: red, 0, -5"
     = inl {| InitialBankroll := 0;
              Bets := [{| Type_ := "red"; Value := 0; Amount := -5 |}] |}
  /\ (-5 <? 0)%float = true.
Proof.
  assert (ParseFloatPlain "-5" = inl (-5)%float) as H
    by (vm_compute; reflexivity).
  split; [exact H|].
  apply (parser_accepts_negative_numbers ParseFloatPlain H).
Defined.

(** ** More on the simulator *)

(** X1: [contains] tells membership in the slice. *)
Theorem contains_iff_member (slice : list Z) (val : Z) :
  (contains slice val = true <-> In val slice)
  /\ (contains slice val = false <-> ~ In val slice).
Proof. split; [apply contains_In | apply contains_false]. Qed.

Lemma Spin_range (rs : RandSource) (s : rng rs) :
  0 <= fst (Spin rs NewRouletteWheel s) <= 36.
Proof.
  pose proof (Spin_In rs s) as H.
  rewrite NewRouletteWheel_Numbers in H. apply in_app_or in H.
  destruct H as [H|H].
  - apply in_map_iff in H. destruct H as [k [<- Hk]]. apply in_seq in Hk. lia.
  - cbn in H. lia.
Qed.

(** X2: a spin of the wheel returns one of its pockets, a number from 0 to
    36: the index [rand.Intn] draws is within the slice. *)
Theorem Spin_returns_a_pocket (rs : RandSource) (s : rng rs) :
  In (fst (Spin rs NewRouletteWheel s)) (Numbers NewRouletteWheel)
  /\ 0 <= fst (Spin rs NewRouletteWheel s) <= 36.
Proof. split; [apply Spin_In | apply Spin_range]. Qed.

(** X3: a number is red or black exactly when it is one of 1 to 36. *)
Theorem red_or_black_iff_1_to_36 (pocket : Z) :
  contains redNumbers pocket || contains blackNumbers pocket = true
  <-> 1 <= pocket <= 36.
Proof.
  rewrite orb_true_iff, !contains_In. split.
  - intros [H|H]; cbn in H; lia.
  - intros H.
    assert (In pocket (map Z.of_nat (seq 1 36))) as Hin.
    { apply in_map_iff. exists (Z.to_nat pocket). split; [lia|].
      apply in_seq. lia. }
    assert (Forall (fun p => contains redNumbers p || contains blackNumbers p
                             = true) (map Z.of_nat (seq 1 36))) as F.
    { repeat (constructor; [reflexivity|]). constructor. }
    rewrite Forall_forall in F. specialize (F pocket Hin).
    rewrite orb_true_iff, !contains_In in F. exact F.
Qed.

Lemma credit_type_amount bet bet' w :
  Type_ bet = Type_ bet' -> Type_ bet <> "number" ->
  Amount bet = Amount bet' ->
  credit bet w = credit bet' w.
Proof.
  intros T N A. unfold credit. rewrite <- T, <- A.
  destruct (String.eqb_spec (Type_ bet) "number"); [contradiction|].
  reflexivity.
Qed.

Lemma isSome_credit_type bet bet' w :
  Type_ bet = Type_ bet' -> Type_ bet <> "number" ->
  match credit bet w with Some _ => true | None => false end
  = match credit bet' w with Some _ => true | None => false end.
Proof.
  intros T N. unfold credit. rewrite <- T.
  destruct (String.eqb_spec (Type_ bet) "number"); [contradiction|].
  repeat match goal with
         | |- context [if ?b then _ else _] =>
             match type of b with bool => destruct b end
         end; reflexivity.
Qed.

Lemma winningPockets_of_type bet ty :
  Type_ bet = ty -> ty <> "number" ->
  winningPockets bet
  = winningPockets {| Type_ := ty; Value := 0; Amount := 0 |}.
Proof.
  intros T N. unfold winningPockets. apply filter_ext. intros w.
  apply isSome_credit_type; cbn [Type_]; congruence.
Qed.

(** X4: an even, odd, red or black bet is credited on 18 of the 38 pockets,
    none of them a zero pocket. *)
Theorem even_money_bets_win_on_18_pockets (bet : Bet) :
  (Type_ bet = "even" ->
     winningPockets bet
     = [2; 4; 6; 8; 10; 12; 14; 16; 18; 20; 22; 24; 26; 28; 30; 32; 34; 36])
  /\ (Type_ bet = "odd" ->
        winningPockets bet
        = [1; 3; 5; 7; 9; 11; 13; 15; 17; 19; 21; 23; 25; 27; 29; 31; 33;
           35])
  /\ (Type_ bet = "red" ->
        winningPockets bet
        = [1; 3; 5; 7; 9; 12; 14; 16; 18; 19; 21; 23; 25; 27; 30; 32; 34;
           36])
  /\ (Type_ bet = "black" ->
        winningPockets bet
        = [2; 4; 6; 8; 10; 11; 13; 15; 17; 20; 22; 24; 26; 28; 29; 31; 33;
           35])
  /\ (Type_ bet = "even" \/ Type_ bet = "odd" \/ Type_ bet = "red"
      \/ Type_ bet = "black" ->
      List.length (winningPockets bet) = 18%nat
      /\ ~ In 0 (winningPockets bet)).
Proof.
  assert (forall ty, ty <> "number" -> Type_ bet = ty ->
            winningPockets bet
            = winningPockets {| Type_ := ty; Value := 0; Amount := 0 |}) as W.
  { intros ty N T. apply winningPockets_of_type; assumption. }
  assert (E : Type_ bet = "even" -> winningPockets bet = _)
    by (apply (W "even"); discriminate).
  assert (O : Type_ bet = "odd" -> winningPockets bet = _)
    by (apply (W "odd"); discriminate).
  assert (R : Type_ bet = "red" -> winningPockets bet = _)
    by (apply (W "red"); discriminate).
  assert (B : Type_ bet = "black" -> winningPockets bet = _)
    by (apply (W "black"); discriminate).
  repeat split.
  - intros T. rewrite (E T). reflexivity.
  - intros T. rewrite (O T). reflexivity.
  - intros T. rewrite (R T). reflexivity.
  - intros T. rewrite (B T). reflexivity.
  - destruct H as [T|[T|[T|T]]];
      [rewrite (E T) | rewrite (O T) | rewrite (R T) | rewrite (B T)];
      reflexivity.
  - destruct H as [T|[T|[T|T]]];
      [rewrite (E T) | rewrite (O T) | rewrite (R T) | rewrite (B T)];
      cbn; intuition discriminate.
Qed.

Lemma filter_eqb_count_nil v l :
  count_occ Z.eq_dec l v = 0%nat -> filter (Z.eqb v) l = [].
Proof.
  intros H. apply (count_occ_not_In Z.eq_dec) in H.
  induction l as [|x l IH]; cbn; [reflexivity|].
  destruct (Z.eqb_spec v x) as [->|N].
  - exfalso. apply H. left. reflexivity.
  - apply IH. intros Hin. apply H. right. exact Hin.
Qed.

(** X5: a number bet on a value outside 0..36 is never credited: no spin of
    the wheel returns its value. *)
Theorem number_bet_out_of_range_never_wins (rs : RandSource) (bet : Bet) :
  Type_ bet = "number" -> ~ 0 <= Value bet <= 36 ->
  winningPockets bet = []
  /\ (forall s, credit bet (fst (Spin rs NewRouletteWheel s)) = None).
Proof.
  intros T R.
  assert (forall w, 0 <= w <= 36 -> credit bet w = None) as C.
  { intros w Hw. rewrite credit_number by exact T.
    destruct (Z.eqb_spec (Value bet) w); [lia | reflexivity]. }
  split.
  - rewrite winningPockets_number by exact T.
    rewrite filter_eqb_count_nil; [reflexivity|].
    rewrite count_pockets. destruct (Z.eqb_spec (Value bet) 0); [lia|].
    destruct (Z.leb_spec 1 (Value bet)), (Z.leb_spec (Value bet) 36);
      cbn; lia.
  - intros s. apply C. apply Spin_range.
Qed.

Lemma number_bet_out_of_range_never_wins_witness :
  let bet := {| Type_ := "number"; Value := 37; Amount := 10 |} in
  winningPockets bet = []
  /\ (forall s, credit bet (fst (Spin lcg NewRouletteWheel s)) = None).
Proof.
  intros bet.
  apply (number_bet_out_of_range_never_wins lcg bet); [reflexivity|].
  cbn. lia.
Defined.

(** [bankroll] unchanged by a round all of whose bets are skipped. *)
Lemma playRound_all_skipped bets w bankroll :
  (forall bet, In bet bets -> (bankroll <? Amount bet)%float = true) ->
  playRound bets w bankroll = bankroll.
Proof.
  unfold playRound. induction bets as [|bet bets IH]; intros H;
    cbn [fold_left]; [reflexivity|].
  assert (placeBet w bankroll bet = bankroll) as ->.
  { unfold placeBet. rewrite (H bet) by (left; reflexivity). reflexivity. }
  apply IH. intros b Hb. apply H. right. exact Hb.
Qed.

(** X6: when the initial bankroll is below the amount of every bet, no bet
    is ever placed and the simulation returns the initial bankroll. *)
Theorem unaffordable_bets_leave_bankroll (rs : RandSource)
    (strategy : Strategy) (numGames : Z) (s : rng rs) :
  (forall bet, In bet (Bets strategy) ->
     (InitialBankroll strategy <? Amount bet)%float = true) ->
  SimulateRoulette rs strategy numGames s = InitialBankroll strategy
  /\ snd (SimulateRouletteLog rs strategy numGames s) = [].
Proof.
  intros H. unfold SimulateRoulette, SimulateRouletteLog.
  generalize (Z.to_nat numGames). intros n. revert s.
  induction n as [|n IH]; intros s; cbn [games gamesLog].
  - split; reflexivity.
  - destruct (Spin rs NewRouletteWheel s) as [w s'].
    rewrite playRound_all_skipped by exact H.
    assert (playRoundLog (Bets strategy) w (InitialBankroll strategy, [])
            = (InitialBankroll strategy, [])) as ->.
    { unfold playRoundLog. clear IH.
      induction (Bets strategy) as [|bet bets IHb]; cbn [fold_left];
        [reflexivity|].
      unfold placeBetLog at 2. rewrite (H bet) by (left; reflexivity).
      apply IHb. intros b Hb. apply H. right. exact Hb. }
    apply IH.
Qed.

(** The strategy of the specification's example: nothing against 10. *)
Lemma unaffordable_bets_leave_bankroll_witness :
  let strategy :=
    {| InitialBankroll := 0;
       Bets := [{| Type_ := "number"; Value := 5; Amount := 10 |}] |} in
  SimulateRoulette lcg strategy 100 0 = 0%float
  /\ snd (SimulateRouletteLog lcg strategy 100 0) = [].
Proof.
  intros strategy.
  apply (unaffordable_bets_leave_bankroll lcg strategy 100 0).
  intros bet [<-|[]]. reflexivity.
Defined.

(** *** NaN *)

Lemma ltb_nan_l x : (nan <? x)%float = false.
Proof. rewrite ltb_spec. reflexivity. Qed.

Lemma ltb_nan_r x : (x <? nan)%float = false.
Proof.
  rewrite ltb_spec. change (Prim2SF nan) with S754_nan.
  destruct (Prim2SF x); reflexivity.
Qed.

Lemma sub_nan_l x : (nan - x)%float = nan.
Proof. apply Prim2SF_inj. rewrite sub_spec. reflexivity. Qed.

Lemma sub_nan_r x : (x - nan)%float = nan.
Proof.
  apply Prim2SF_inj. rewrite sub_spec. change (Prim2SF nan) with S754_nan.
  destruct (Prim2SF x); reflexivity.
Qed.

Lemma add_nan_l x : (nan + x)%float = nan.
Proof. apply Prim2SF_inj. rewrite add_spec. reflexivity. Qed.

Lemma placeBet_nan w bet : placeBet w nan bet = nan.
Proof.
  unfold placeBet. rewrite ltb_nan_l, sub_nan_l.
  destruct (credit bet w); [apply add_nan_l | reflexivity].
Qed.

Lemma placeBet_nan_amount w bankroll bet :
  Amount bet = nan -> placeBet w bankroll bet = nan.
Proof.
  intros A. unfold placeBet. rewrite A, ltb_nan_r, sub_nan_r.
  destruct (credit bet w); [apply add_nan_l | reflexivity].
Qed.

Lemma playRound_nan bets w : playRound bets w nan = nan.
Proof.
  unfold playRound. induction bets as [|bet bets IH]; cbn [fold_left];
    [reflexivity|].
  rewrite placeBet_nan. exact IH.
Qed.

Lemma playRound_nan_amount bets w bankroll bet :
  In bet bets -> Amount bet = nan -> playRound bets w bankroll = nan.
Proof.
  intros Hin A. apply in_split in Hin. destruct Hin as [pre [post ->]].
  rewrite playRound_app. unfold playRound at 1. cbn [fold_left].
  rewrite (placeBet_nan_amount _ _ _ A). apply playRound_nan.
Qed.

Lemma games_nan (rs : RandSource) wheel bets n : forall s,
  games rs wheel bets n s nan = nan.
Proof.
  induction n as [|n IH]; intros s; cbn [games]; [reflexivity|].
  destruct (Spin rs wheel s) as [w s']. rewrite playRound_nan. apply IH.
Qed.

(** X7: NaN is never below an amount and no amount is below NaN, so a bet
    whose amount is NaN is placed in the first game and leaves the bankroll
    NaN for good; so does a NaN initial bankroll. *)
Theorem nan_poisons_bankroll (rs : RandSource) (strategy : Strategy)
    (numGames : Z) (s : rng rs) :
  InitialBankroll strategy = nan
  \/ (0 < numGames
      /\ exists bet, In bet (Bets strategy) /\ Amount bet = nan) ->
  SimulateRoulette rs strategy numGames s = nan.
Proof.
  unfold SimulateRoulette. intros [H|[Hn [bet [Hin A]]]].
  - rewrite H. apply games_nan.
  - destruct (Z.to_nat numGames) as [|n] eqn:E; [lia|]. cbn [games].
    destruct (Spin rs NewRouletteWheel s) as [w s'].
    rewrite (playRound_nan_amount _ w _ bet Hin A). apply games_nan.
Qed.

Lemma nan_poisons_bankroll_witness :
  SimulateRoulette lcg
    {| InitialBankroll := 100;
       Bets := [{| Type_ := "red"; Value := 0; Amount := 10 |};
                {| Type_ := "odd"; Value := 0; Amount := nan |}] |} 3 0
  = nan.
Proof.
  apply (nan_poisons_bankroll lcg). right. split; [reflexivity|].
  exists {| Type_ := "odd"; Value := 0; Amount := nan |}.
  split; [right; left; reflexivity | reflexivity].
Defined.

(** X8: the value of an even, odd, red or black bet is never read. *)
Theorem value_matters_for_number_bets_only (rs : RandSource)
    (initial : float) (pre post : list Bet) (bet : Bet) (value : Z)
    (numGames : Z) (s : rng rs) :
  Type_ bet <> "number" ->
  SimulateRoulette rs
    {| InitialBankroll := initial; Bets := pre ++ bet :: post |} numGames s
  = SimulateRoulette rs
      {| InitialBankroll := initial;
         Bets := pre ++ {| Type_ := Type_ bet; Value := value;
                           Amount := Amount bet |} :: post |} numGames s.
Proof.
  intros N. unfold SimulateRoulette. cbn [Bets InitialBankroll].
  apply games_ext. intros w bankroll. rewrite !playRound_app.
  generalize (playRound pre w bankroll). intros b.
  unfold playRound. cbn [fold_left]. f_equal.
  unfold placeBet. cbn [Amount].
  rewrite (credit_type_amount bet
             {| Type_ := Type_ bet; Value := value; Amount := Amount bet |} w)
    by (cbn; auto).
  reflexivity.
Qed.

Lemma value_matters_for_number_bets_only_witness :
  SimulateRoulette lcg
    {| InitialBankroll := 100;
       Bets := [] ++ {| Type_ := "red"; Value := 5; Amount := 10 |} :: [] |}
    20 0
  = SimulateRoulette lcg
      {| InitialBankroll := 100;
         Bets := [] ++ {| Type_ := "red"; Value := 17; Amount := 10 |}
                 :: [] |} 20 0.
Proof.
  apply (value_matters_for_number_bets_only lcg 100 [] []
           {| Type_ := "red"; Value := 5; Amount := 10 |} 17 20 0).
  discriminate.
Defined.

(** *** Games in sequence *)

Lemma games_add (rs : RandSource) wheel bets m n : forall s bankroll,
  games rs wheel bets (m + n) s bankroll
  = games rs wheel bets n (rngAfter rs wheel m s)
      (games rs wheel bets m s bankroll).
Proof.
  induction m as [|m IH]; intros s bankroll; cbn [Nat.add games rngAfter].
  - reflexivity.
  - destruct (Spin rs wheel s) as [w s']. cbn [snd]. apply IH.
Qed.

(** X9: [m + n] games are [m] games followed by [n] games that start from
    the bankroll and the generator the first [m] left. *)
Theorem games_in_sequence (rs : RandSource) (strategy : Strategy)
    (m n : Z) (s : rng rs) :
  0 <= m -> 0 <= n ->
  SimulateRoulette rs strategy (m + n) s
  = SimulateRoulette rs
      {| InitialBankroll := SimulateRoulette rs strategy m s;
         Bets := Bets strategy |}
      n (rngAfter rs NewRouletteWheel (Z.to_nat m) s).
Proof.
  intros Hm Hn. unfold SimulateRoulette. cbn [Bets InitialBankroll].
  rewrite Z2Nat.inj_add by assumption. apply games_add.
Qed.

Lemma games_in_sequence_witness :
  let strategy :=
    {| InitialBankroll := 100;
       Bets := [{| Type_ := "red"; Value := 0; Amount := 10 |};
                {| Type_ := "number"; Value := 7; Amount := 1 |}] |} in
  SimulateRoulette lcg strategy (5 + 7) 0
  = SimulateRoulette lcg
      {| InitialBankroll := SimulateRoulette lcg strategy 5 0;
         Bets := Bets strategy |}
      7 (rngAfter lcg NewRouletteWheel (Z.to_nat 5) 0).
Proof.
  intros strategy. apply (games_in_sequence lcg strategy 5 7 0); lia.
Defined.

(** ** More on the parser *)

Section ParserResult.

Variable ParseFloat : string -> float + NumError.

Lemma parseLine_lineError st line :
  parseLine ParseFloat st line =
  match lineError ParseFloat line with
  | Some err => inr err
  | None =>
      inl {| InitialBankroll :=
               lastBankroll ParseFloat [line] (InitialBankroll st);
             Bets := Bets st ++ collectBets ParseFloat [line] |}
  end.
Proof.
  unfold lineError. cbn [lastBankroll collectBets]. unfold isBankrollLine.
  destruct (HasPrefix (TrimSpace line) "bankroll:") eqn:B.
  - rewrite parseLine_bankroll by exact B.
    rewrite betOf_bankroll by exact B.
    destruct (ParseFloat _); [|reflexivity]. rewrite app_nil_r. reflexivity.
  - destruct (HasPrefix (TrimSpace line) "bet:") eqn:T.
    + rewrite parseLine_bet by exact T. cbv zeta. unfold betOf. rewrite T.
      destruct (Nat.eqb (List.length (betParts (TrimSpace line))) 3);
        cbn [negb andb]; [|reflexivity].
      destruct (Atoi _); [|reflexivity].
      destruct (ParseFloat _); reflexivity.
    + rewrite parseLine_ignored by assumption.
      rewrite betOf_not_bet by exact T. rewrite app_nil_r.
      destruct st; reflexivity.
Qed.

Lemma lastBankroll_cons line rest b :
  lastBankroll ParseFloat (line :: rest) b
  = lastBankroll ParseFloat rest (lastBankroll ParseFloat [line] b).
Proof.
  cbn [lastBankroll]. destruct (isBankrollLine line); [|reflexivity].
  destruct (ParseFloat _); reflexivity.
Qed.

Lemma parseLines_result lines : forall st,
  parseLines ParseFloat lines st =
  match firstError ParseFloat lines with
  | Some err => inr err
  | None =>
      inl {| InitialBankroll :=
               lastBankroll ParseFloat lines (InitialBankroll st);
             Bets := Bets st ++ collectBets ParseFloat lines |}
  end.
Proof.
  induction lines as [|line rest IH]; intros st;
    cbn [parseLines firstError].
  - cbn. rewrite app_nil_r. destruct st; reflexivity.
  - rewrite parseLine_lineError.
    destruct (lineError ParseFloat line); [reflexivity|].
    rewrite IH. cbn [InitialBankroll Bets].
    destruct (firstError ParseFloat rest); [reflexivity|].
    rewrite (lastBankroll_cons line rest),
      (collectBets_cons ParseFloat line rest), app_assoc.
    reflexivity.
Qed.

Lemma firstError_app pre post :
  firstError ParseFloat (pre ++ post) =
  match firstError ParseFloat pre with
  | Some err => Some err
  | None => firstError ParseFloat post
  end.
Proof.
  induction pre as [|line pre IH]; cbn [app firstError]; [reflexivity|].
  destruct (lineError ParseFloat line); [reflexivity | exact IH].
Qed.

(** X10: the parse fails exactly when some line has an error, with the
    error of the first such line; the lines after it are not looked at.
    Within a bet line the count of the fields is checked first, then the
    value, then the amount. *)
Theorem parse_reports_first_error (input : string) (err : ParseError) :
  (ParseStrategy ParseFloat input = inr err
   <-> firstError ParseFloat (Split input LF) = Some err)
  /\ (forall pre line post,
        firstError ParseFloat pre = None ->
        lineError ParseFloat line = Some err ->
        parseLines ParseFloat (pre ++ line :: post)
          {| InitialBankroll := 0; Bets := [] |} = inr err).
Proof.
  split.
  - unfold ParseStrategy. rewrite parseLines_result.
    destruct (firstError ParseFloat (Split input LF)).
    + split; intros E; inversion E; reflexivity.
    + split; discriminate.
  - intros pre line post Hp Hl. rewrite parseLines_result, firstError_app, Hp.
    cbn [firstError]. rewrite Hl. reflexivity.
Qed.

(** X11: the parse succeeds exactly when no line has an error, and then
    returns the number of the last bankroll line (0 when there is none) and
    the bets of the bet lines in the order of the lines. *)
Theorem parse_succeeds_with (input : string) :
  (firstError ParseFloat (Split input LF) = None
   <-> exists strategy, ParseStrategy ParseFloat input = inl strategy)
  /\ (forall strategy,
        ParseStrategy ParseFloat input = inl strategy ->
        strategy
        = {| InitialBankroll := lastBankroll ParseFloat (Split input LF) 0;
             Bets := collectBets ParseFloat (Split input LF) |}).
Proof.
  unfold ParseStrategy. rewrite parseLines_result.
  cbn [InitialBankroll Bets app].
  destruct (firstError ParseFloat (Split input LF)); split.
  - split; [discriminate | intros [st E]; discriminate].
  - discriminate.
  - split; eauto.
  - intros st E. inversion E. reflexivity.
Qed.

End ParserResult.

(** *** Texts joined by a newline *)

Lemma append_assoc (a b c : string) :
  ((a ++ b) ++ c = a ++ (b ++ c))%string.
Proof.
  induction a as [|x a IH]; cbn; [reflexivity|]. rewrite IH. reflexivity.
Qed.

Lemma Split_nonempty s sep : Split s sep <> [].
Proof.
  destruct s as [|c s]; cbn; [discriminate|].
  destruct (Ascii.eqb c sep); [discriminate|].
  destruct (Split s sep); discriminate.
Qed.

Lemma Split_app a b sep :
  Split (a ++ String sep b) sep = Split a sep ++ Split b sep.
Proof.
  induction a as [|c a IH]; cbn [append Split].
  - rewrite Ascii.eqb_refl. reflexivity.
  - destruct (Ascii.eqb c sep); rewrite IH; [reflexivity|].
    destruct (Split a sep) as [|piece pieces] eqn:E; [|reflexivity].
    destruct (Split_nonempty _ _ E).
Qed.

Lemma Split_without_sep s sep : hasByte sep s = false -> Split s sep = [s].
Proof.
  induction s as [|c s IH]; cbn [hasByte Split]; [reflexivity|].
  intros H. apply orb_false_elim in H. destruct H as [H1 H2].
  rewrite H1, (IH H2). reflexivity.
Qed.

Section ParserJoin.

Variable ParseFloat : string -> float + NumError.

Lemma lastBankroll_app pre post b :
  lastBankroll ParseFloat (pre ++ post) b
  = lastBankroll ParseFloat post (lastBankroll ParseFloat pre b).
Proof.
  revert b. induction pre as [|line pre IH]; intros b;
    cbn [app lastBankroll]; [reflexivity|].
  destruct (isBankrollLine line); [|apply IH].
  destruct (ParseFloat _); apply IH.
Qed.

Lemma collectBets_app pre post :
  collectBets ParseFloat (pre ++ post)
  = collectBets ParseFloat pre ++ collectBets ParseFloat post.
Proof.
  induction pre as [|line pre IH]; cbn [app collectBets]; [reflexivity|].
  destruct (betOf ParseFloat line); rewrite IH; reflexivity.
Qed.

Lemma lastBankroll_default lines b :
  firstError ParseFloat lines = None ->
  lastBankroll ParseFloat lines b
  = if existsb isBankrollLine lines then lastBankroll ParseFloat lines 0
    else b.
Proof.
  revert b. induction lines as [|line rest IH]; intros b;
    cbn [firstError lastBankroll existsb]; [reflexivity|].
  destruct (lineError ParseFloat line) eqn:L; [discriminate|].
  unfold isBankrollLine.
  destruct (HasPrefix (TrimSpace line) "bankroll:") eqn:B; cbn [orb].
  - unfold lineError in L. rewrite B in L.
    destruct (ParseFloat _); [reflexivity | discriminate].
  - apply IH.
Qed.

(** X12: the parse of two texts joined by a newline goes through the first
    and carries on with the second from the strategy of the first: an error
    of the first text is the error of the whole; when both parse, the bets
    are those of the first followed by those of the second, and the
    bankroll is the second's when it has a bankroll line, the first's
    otherwise. *)
Theorem parse_of_joined_texts (a b : string) :
  ParseStrategy ParseFloat (a ++ String LF b)
  = match ParseStrategy ParseFloat a with
    | inl sa => parseLines ParseFloat (Split b LF) sa
    | inr err => inr err
    end
  /\ (forall sa sb,
        ParseStrategy ParseFloat a = inl sa ->
        ParseStrategy ParseFloat b = inl sb ->
        ParseStrategy ParseFloat (a ++ String LF b)
        = inl {| InitialBankroll :=
                   if existsb isBankrollLine (Split b LF)
                   then InitialBankroll sb else InitialBankroll sa;
                 Bets := Bets sa ++ Bets sb |}).
Proof.
  assert (ParseStrategy ParseFloat (a ++ String LF b)
          = match ParseStrategy ParseFloat a with
            | inl sa => parseLines ParseFloat (Split b LF) sa
            | inr err => inr err
            end) as E.
  { unfold ParseStrategy. rewrite Split_app. apply parseLines_app. }
  split; [exact E|].
  intros sa sb Ea Eb. rewrite E, Ea. clear E.
  unfold ParseStrategy in Ea, Eb. rewrite parseLines_result in Ea, Eb.
  rewrite parseLines_result.
  destruct (firstError ParseFloat (Split a LF)); [discriminate|].
  destruct (firstError ParseFloat (Split b LF)) eqn:Fb; [discriminate|].
  inversion Ea; subst. inversion Eb; subst. clear Ea Eb.
  cbn [InitialBankroll Bets app].
  rewrite (lastBankroll_default _ (lastBankroll _ _ _) Fb). reflexivity.
Qed.

End ParserJoin.

(** *** The value of a parsed bet *)




Section ParserValues.

Variable ParseFloat : string -> float + NumError.




End ParserValues.


(** *** The text [main] collects *)

Lemma append_empty_r (a : string) : (a ++ EmptyString)%string = a.
Proof.
  induction a as [|x a IH]; cbn; [reflexivity|]. rewrite IH. reflexivity.
Qed.

Lemma readStrategy_text lines : forall input,
  fst (readStrategy lines input)
  = (input ++ linesText (beforeDone lines))%string.
Proof.
  induction lines as [|line rest IH]; intros input;
    cbn [readStrategy beforeDone].
  - cbn [fst linesText]. rewrite append_empty_r. reflexivity.
  - destruct (String.eqb line "done"); cbn [fst linesText].
    + rewrite append_empty_r. reflexivity.
    + rewrite IH, !append_assoc. reflexivity.
Qed.

Lemma Split_linesText lines :
  Forall (fun l => hasByte LF l = false) lines ->
  Split (linesText lines) LF = lines ++ [EmptyString].
Proof.
  induction 1 as [|line rest Hl Hr IH]; cbn [linesText app]; [reflexivity|].
  rewrite Split_app, IH, (Split_without_sep _ _ Hl). reflexivity.
Qed.

Lemma beforeDone_incl lines l : In l (beforeDone lines) -> In l lines.
Proof.
  induction lines as [|line rest IH]; cbn [beforeDone]; [tauto|].
  destruct (String.eqb line "done"); [intros []|].
  intros [<-|H]; [left; reflexivity | right; apply IH, H].
Qed.

(** X14: the text [main] hands to the parser holds the lines typed before
    the first line that is exactly [done], each ended by a newline; parsing
    it is parsing those lines one by one, and nothing typed after [done] is
    part of the strategy. *)
Theorem collected_text_parses_as_its_lines
    (ParseFloat : string -> float + NumError) (lines : list string) :
  Forall (fun l => hasByte LF l = false) lines ->
  Split (fst (readStrategy lines EmptyString)) LF
  = beforeDone lines ++ [EmptyString]
  /\ ParseStrategy ParseFloat (fst (readStrategy lines EmptyString))
     = parseLines ParseFloat (beforeDone lines)
         {| InitialBankroll := 0; Bets := [] |}
  /\ ~ In "done" (beforeDone lines).
Proof.
  intros H.
  assert (Split (fst (readStrategy lines EmptyString)) LF
          = beforeDone lines ++ [EmptyString]) as S.
  { rewrite readStrategy_text. cbn [append]. apply Split_linesText.
    apply Forall_forall. intros l Hl. rewrite Forall_forall in H.
    apply H, beforeDone_incl, Hl. }
  split; [exact S|]. split.
  - unfold ParseStrategy. rewrite S, parseLines_app.
    destruct (parseLines ParseFloat (beforeDone lines) _); reflexivity.
  - clear. induction lines as [|line rest IH]; cbn [beforeDone]; [tauto|].
    destruct (String.eqb_spec line "done") as [E|E]; [tauto|].
    intros [H|H]; [congruence | exact (IH H)].
Qed.

Lemma collected_text_parses_as_its_lines_witness :
  let lines := ["bankroll: 50"; "bet: red, 0, 5"; "done"; "3";
                "bet: odd, 0, 1"] in
  ParseStrategy ParseFloatPlain (fst (readStrategy lines EmptyString))
  = parseLines ParseFloatPlain ["bankroll: 50"; "bet: red, 0, 5"]
      {| InitialBankroll := 0; Bets := [] |}
  /\ snd (readStrategy lines EmptyString) = ["3"; "bet: odd, 0, 1"].
Proof.
  intros lines. split; [|reflexivity].
  apply (collected_text_parses_as_its_lines ParseFloatPlain lines).
  repeat constructor.
Defined.

(** *** The game count *)

Lemma readStrategy_app pre post : forall input,
  ~ In "done" pre ->
  readStrategy (pre ++ post) input
  = readStrategy post (input ++ linesText pre).
Proof.
  induction pre as [|line pre IH]; intros input H; cbn [app linesText].
  - rewrite append_empty_r. reflexivity.
  - cbn [readStrategy].
    destruct (String.eqb_spec line "done") as [E|E].
    + exfalso. apply H. left. exact E.
    + rewrite IH by (intros Hin; apply H; right; exact Hin).
      rewrite !append_assoc. reflexivity.
Qed.

Section MainFacts.

Variable rs : RandSource.
Variable ParseFloat : string -> float + NumError.

(** X15: a game count that is zero or negative is accepted and plays no
    game: the report shows the initial bankroll as the final one. *)
Theorem nonpositive_game_count_plays_no_game (lines : list string)
    (s : rng rs) (strategy : Strategy) (numGames : Z) :
  ParseStrategy ParseFloat (fst (readStrategy lines EmptyString))
  = inl strategy ->
  Atoi (hd EmptyString (snd (readStrategy lines EmptyString)))
  = inl numGames ->
  numGames <= 0 ->
  main rs ParseFloat lines s
  = Report (InitialBankroll strategy) (InitialBankroll strategy)
           (InitialBankroll strategy - InitialBankroll strategy)%float.
Proof.
  unfold main. destruct (readStrategy lines EmptyString) as [input rest].
  cbn [fst snd]. intros -> -> H. unfold SimulateRoulette.
  replace (Z.to_nat numGames) with 0%nat by lia. reflexivity.
Qed.

(** X16: when the input ends with no line after [done], or with no [done]
    at all, a strategy that parses is answered by the error of the game
    count: the empty text is no number. *)
Theorem input_without_game_count_is_rejected (lines : list string)
    (s : rng rs) (strategy : Strategy) :
  ~ In "done" lines
  \/ (exists pre, ~ In "done" pre /\ lines = pre ++ ["done"]) ->
  ParseStrategy ParseFloat (fst (readStrategy lines EmptyString))
  = inl strategy ->
  main rs ParseFloat lines s = InvalidGames ErrSyntax.
Proof.
  intros H.
  assert (snd (readStrategy lines EmptyString) = []) as R.
  { destruct H as [H|[pre [H ->]]].
    - rewrite <- (app_nil_r lines), readStrategy_app by exact H.
      reflexivity.
    - rewrite readStrategy_app by exact H. reflexivity. }
  unfold main. destruct (readStrategy lines EmptyString) as [input rest].
  cbn [fst snd] in *. intros ->. rewrite R. reflexivity.
Qed.

End MainFacts.

Lemma nonpositive_game_count_plays_no_game_witness :
  main lcg ParseFloatPlain
    ["bankroll: 50"; "bet: red, 0, 5"; "done"; "-3"] 0
  = Report 50 50 (50 - 50)%float.
Proof.
  apply (nonpositive_game_count_plays_no_game lcg ParseFloatPlain
           ["bankroll: 50"; "bet: red, 0, 5"; "done"; "-3"] 0
           {| InitialBankroll := 50;
              Bets := [{| Type_ := "red"; Value := 0; Amount := 5 |}] |}
           (-3)).
  - vm_compute. reflexivity.
  - reflexivity.
  - lia.
Defined.

Lemma input_without_game_count_is_rejected_witness :
  main lcg ParseFloatPlain ["bankroll: 50"; "bet: red, 0, 5"] 0
  = InvalidGames ErrSyntax.
Proof.
  apply (input_without_game_count_is_rejected lcg ParseFloatPlain
           ["bankroll: 50"; "bet: red, 0, 5"] 0
           {| InitialBankroll := 50;
              Bets := [{| Type_ := "red"; Value := 0; Amount := 5 |}] |}).
  - left. intros [H|[H|[]]]; discriminate.
  - vm_compute. reflexivity.
Defined.
